(** * ExtractVariable: the clangd "extract subexpression to variable" tweak

    A shallow embedding of
    [clang-tools-extra/clangd/refactor/tweaks/ExtractVariable.cpp]
    and the properties of its insertion-point search, eligibility filter,
    associative-operator range computation, reference collector and edit
    generation; and, in module [PassManagerCL], of the command-line options
    of the pass manager in [mlir/lib/Pass/PassManagerOptions.cpp].

    Conventions of the embedding.
    - An AST node is a tree value that carries its address ([Addr]); the
      pointer comparisons of the source ([Inner == WS->getBody()]) compare
      addresses.
    - A selection-tree node is a tree value together with the chain of its
      ancestors, nearest first, so that [Parent] is a total function into
      [option] and the upward loops are structural.
    - [assert] is compiled out (NDEBUG).  Where the source then dereferences
      a null pointer, an empty optional or the front of an empty vector the
      embedding returns [None] ("no defined result").
    - Services of clang and clangd that the file only calls (source manager,
      printing of types, the replacement set) are record fields or section
      variables. *)

From Stdlib Require Import List String ZArith Bool Arith Lia Permutation.
Import ListNotations.

Set Implicit Arguments.
Set Warnings "-register-all".
Set Warnings "-automation".
Set Warnings "-notation-overridden".

(** ** Source locations *)

Module Loc.

Definition FileID := nat.

(** [clang::SourceLocation]: invalid, or a position in the address space of
    the source manager that is either spelled in a file or produced by a
    macro expansion. *)
Inductive SourceLocation : Type :=
| InvalidLoc
| FileLoc (raw : nat)
| MacroLoc (raw : nat).

Definition isValid (L : SourceLocation) : bool :=
  match L with InvalidLoc => false | _ => true end.

Definition isMacroID (L : SourceLocation) : bool :=
  match L with MacroLoc _ => true | _ => false end.

Definition eqb (A B : SourceLocation) : bool :=
  match A, B with
  | InvalidLoc, InvalidLoc => true
  | FileLoc a, FileLoc b => Nat.eqb a b
  | MacroLoc a, MacroLoc b => Nat.eqb a b
  | _, _ => false
  end.

(** [clang::SourceRange]; the default-constructed range is invalid. *)
Record SourceRange : Type := mkRange
  { getBegin : SourceLocation; getEnd : SourceLocation }.

Definition NoRange : SourceRange := mkRange InvalidLoc InvalidLoc.

Definition rangeIsValid (R : SourceRange) : bool :=
  isValid (getBegin R) && isValid (getEnd R).

Definition range_eqb (A B : SourceRange) : bool :=
  eqb (getBegin A) (getBegin B) && eqb (getEnd A) (getEnd B).

End Loc.
Export Loc.

(** ** Language options, source manager, AST context *)

Record LangOptions : Type := { CPlusPlus11 : bool }.

(** The queries the tweak makes through [clang::SourceManager], together with
    the two helpers of clangd's SourceCode.h that read through it.
    [getFileOffset] is an [unsigned]. *)
Record SourceManager : Type :=
  { getFileID : SourceLocation -> FileID;
    getFileOffset : SourceLocation -> Z;
    isPointWithin : SourceLocation -> SourceLocation -> SourceLocation -> bool;
    toHalfOpenFileRange : LangOptions -> SourceRange -> option SourceRange;
    toSourceCode : SourceRange -> string }.

(** ** Types *)

Inductive BuiltinKind : Type :=
| BK_Void | BK_Bool | BK_Int | BK_Double | BK_PseudoObject | BK_OtherBuiltin.

Inductive NullabilityKind : Type :=
| NonNull | Nullable | Unspecified | NullableResult.

Inductive ClangType : Type :=
| BuiltinType (K : BuiltinKind)
| AutoType
| AttributedType (ImmediateNullability : option NullabilityKind)
                 (ModifiedType : ClangType)
| OtherType (id : nat).

(** [clang::QualType]; [None] is the null type. *)
Definition QualType : Type := option ClangType.

Definition isNull (T : QualType) : bool :=
  match T with None => true | Some _ => false end.

Fixpoint isVoidTy (T : ClangType) : bool :=
  match T with
  | BuiltinType BK_Void => true
  | AttributedType _ M => isVoidTy M
  | _ => false
  end.

(** [AttributedType::stripOuterNullability]: drops one outer nullability
    attribute in place. *)
Definition stripOuterNullability (T : QualType) : QualType :=
  match T with
  | Some (AttributedType (Some _) M) => Some M
  | _ => T
  end.

Record ASTContext : Type := { getLangOpts : LangOptions }.

Definition getAutoDeductType (Ctx : ASTContext) : QualType := Some AutoType.

(** ** Declarations *)

Inductive DeclKind : Type :=
| DK_Var | DK_ParmVar | DK_Decomposition
| DK_Function | DK_CXXMethod | DK_CXXConversion
| DK_Field | DK_TemplateParm | DK_OtherDecl.

(** What the tweak reads from a [clang::Decl]. *)
Record Decl : Type :=
  { DeclAddr : nat;
    KindOf : DeclKind;
    DeclRange : SourceRange;
    (** [CXXMethodDecl::getParent()->isLambda()] *)
    ParentIsLambda : bool;
    (** [VarDecl::isInitCapture()] *)
    InitCapture : bool;
    (** [VarDecl::getInit()], as the address of the initializer *)
    Init : option nat }.

Definition isa_CXXMethodDecl (D : Decl) : bool :=
  match KindOf D with DK_CXXMethod | DK_CXXConversion => true | _ => false end.

Definition isa_VarDecl (D : Decl) : bool :=
  match KindOf D with DK_Var | DK_ParmVar | DK_Decomposition => true | _ => false end.

Definition isa_ParmVarDecl (D : Decl) : bool :=
  match KindOf D with DK_ParmVar => true | _ => false end.

Definition declBeginLoc (D : Decl) : SourceLocation := getBegin (DeclRange D).
Definition declEndLoc (D : Decl) : SourceLocation := getEnd (DeclRange D).

(** ** Statements and expressions *)

Inductive BinaryOperatorKind : Type :=
| BO_PtrMemD | BO_PtrMemI
| BO_Mul | BO_Div | BO_Rem
| BO_Add | BO_Sub
| BO_Shl | BO_Shr
| BO_Cmp
| BO_LT | BO_GT | BO_LE | BO_GE
| BO_EQ | BO_NE
| BO_And | BO_Xor | BO_Or
| BO_LAnd | BO_LOr
| BO_Assign | BO_MulAssign | BO_DivAssign | BO_RemAssign
| BO_AddAssign | BO_SubAssign | BO_ShlAssign | BO_ShrAssign
| BO_AndAssign | BO_XorAssign | BO_OrAssign
| BO_Comma.

Definition BinaryOperatorKind_eqb (A B : BinaryOperatorKind) : bool :=
  match A, B with
  | BO_PtrMemD, BO_PtrMemD | BO_PtrMemI, BO_PtrMemI
  | BO_Mul, BO_Mul | BO_Div, BO_Div | BO_Rem, BO_Rem
  | BO_Add, BO_Add | BO_Sub, BO_Sub
  | BO_Shl, BO_Shl | BO_Shr, BO_Shr
  | BO_Cmp, BO_Cmp
  | BO_LT, BO_LT | BO_GT, BO_GT | BO_LE, BO_LE | BO_GE, BO_GE
  | BO_EQ, BO_EQ | BO_NE, BO_NE
  | BO_And, BO_And | BO_Xor, BO_Xor | BO_Or, BO_Or
  | BO_LAnd, BO_LAnd | BO_LOr, BO_LOr
  | BO_Assign, BO_Assign | BO_MulAssign, BO_MulAssign
  | BO_DivAssign, BO_DivAssign | BO_RemAssign, BO_RemAssign
  | BO_AddAssign, BO_AddAssign | BO_SubAssign, BO_SubAssign
  | BO_ShlAssign, BO_ShlAssign | BO_ShrAssign, BO_ShrAssign
  | BO_AndAssign, BO_AndAssign | BO_XorAssign, BO_XorAssign
  | BO_OrAssign, BO_OrAssign
  | BO_Comma, BO_Comma => true
  | _, _ => false
  end.

(** [BinaryOperator::isAssignmentOp]: the opcodes from [BO_Assign] to
    [BO_OrAssign]. *)
Definition isAssignmentOp (K : BinaryOperatorKind) : bool :=
  match K with
  | BO_Assign | BO_MulAssign | BO_DivAssign | BO_RemAssign
  | BO_AddAssign | BO_SubAssign | BO_ShlAssign | BO_ShrAssign
  | BO_AndAssign | BO_XorAssign | BO_OrAssign => true
  | _ => false
  end.

(** What every statement carries: its address, its source range and, for an
    expression, the results of [getExprLoc()] and [getType()]. *)
Record StmtInfo : Type :=
  { Addr : nat;
    Range : SourceRange;
    OpLoc : SourceLocation;
    Ty : QualType }.

(** A declaration, a written type or an attribute inside an expression, with
    the statements a recursive visit of it reaches. *)
Record DeclNode (S : Type) : Type :=
  { TheDecl : Decl; DeclStmts : list S }.

Record LambdaCapture (S : Type) : Type :=
  { IsInitCapture : bool; CapturedVar : DeclNode S }.

Record CallOperatorNode (S : Type) : Type :=
  { DeclaredReturnType : list S;
    parameters : list (DeclNode S);
    attrs : list (list S) }.

(** What [computeVariableType] reads from an [ObjCPropertyRefExpr]. *)
Record PropertyRef : Type :=
  { isMessagingSetter : bool;
    isMessagingGetter : bool;
    isExplicitProperty : bool;
    ExplicitPropertyType : QualType;
    ImplicitGetterReturnType : QualType }.

Inductive SwitchCaseKind : Type := SC_Case | SC_Default.

Inductive Stmt : Type :=
(* expressions *)
| BinaryOperator (i : StmtInfo) (Opcode : BinaryOperatorKind) (LHS RHS : Stmt)
| CXXOperatorCallExpr (i : StmtInfo) (InfixBinaryOp : bool)
    (OverloadedOpcode : BinaryOperatorKind) (Callee : Stmt) (Args : list Stmt)
| CallExpr (i : StmtInfo) (Callee : Stmt) (Args : list Stmt)
| DeclRefExpr (i : StmtInfo) (D : Decl)
| MemberExpr (i : StmtInfo) (Base : Stmt) (MemberDecl : Decl)
| CXXThisExpr (i : StmtInfo) (Implicit : bool)
| ImplicitCastExpr (i : StmtInfo) (SubExpr : Stmt)
| LambdaExpr (i : StmtInfo)
    (captures : list (LambdaCapture Stmt * option Stmt))
    (TrailingRequiresClause : option Stmt)
    (ExplicitTemplateParameters : list (DeclNode Stmt))
    (CallOperator : option (CallOperatorNode Stmt))
    (Body : Stmt)
| ObjCPropertyRefExpr (i : StmtInfo) (PR : PropertyRef) (Sub : list Stmt)
| OtherExpr (i : StmtInfo) (Sub : list Stmt)
(* statements *)
| CompoundStmt (i : StmtInfo) (Body : list Stmt)
| DeclStmt (i : StmtInfo) (Decls : list (DeclNode Stmt))
| AttributedStmt (i : StmtInfo) (SubStmt : Stmt)
| ReturnStmt (i : StmtInfo) (RetValue : option Stmt)
| WhileStmt (i : StmtInfo) (Cond Body : Stmt)
| DoStmt (i : StmtInfo) (Body Cond : Stmt)
| ForStmt (i : StmtInfo) (ForInit Cond Inc : option Stmt) (Body : Stmt)
| CXXForRangeStmt (i : StmtInfo) (LoopVarStmt RangeInit Body : Stmt)
| IfStmt (i : StmtInfo) (Cond Then : Stmt) (Else : option Stmt)
| SwitchCase (i : StmtInfo) (K : SwitchCaseKind) (Sub : list Stmt)
| OtherStmt (i : StmtInfo) (Sub : list Stmt).

Definition info (St : Stmt) : StmtInfo :=
  match St with
  | BinaryOperator i _ _ _ | CXXOperatorCallExpr i _ _ _ _ | CallExpr i _ _
  | DeclRefExpr i _ | MemberExpr i _ _ | CXXThisExpr i _
  | ImplicitCastExpr i _ | LambdaExpr i _ _ _ _ _
  | ObjCPropertyRefExpr i _ _ | OtherExpr i _
  | CompoundStmt i _ | DeclStmt i _ | AttributedStmt i _ | ReturnStmt i _
  | WhileStmt i _ _ | DoStmt i _ _ | ForStmt i _ _ _ _
  | CXXForRangeStmt i _ _ _ | IfStmt i _ _ _ | SwitchCase i _ _
  | OtherStmt i _ => i
  end.

Definition getSourceRange (St : Stmt) : SourceRange := Range (info St).
Definition getBeginLoc (St : Stmt) : SourceLocation := getBegin (Range (info St)).
Definition getEndLoc (St : Stmt) : SourceLocation := getEnd (Range (info St)).
Definition getExprLoc (St : Stmt) : SourceLocation := OpLoc (info St).
Definition getType (St : Stmt) : QualType := Ty (info St).

(** [isa<Expr>] *)
Definition isa_Expr (St : Stmt) : bool :=
  match St with
  | BinaryOperator _ _ _ _ | CXXOperatorCallExpr _ _ _ _ _ | CallExpr _ _ _
  | DeclRefExpr _ _ | MemberExpr _ _ _ | CXXThisExpr _ _
  | ImplicitCastExpr _ _ | LambdaExpr _ _ _ _ _ _
  | ObjCPropertyRefExpr _ _ _ | OtherExpr _ _ => true
  | _ => false
  end.

Definition isa_CompoundStmt (St : Stmt) : bool :=
  match St with CompoundStmt _ _ => true | _ => false end.

Definition isa_DeclRefExpr (St : Stmt) : bool :=
  match St with DeclRefExpr _ _ => true | _ => false end.

Definition isa_MemberExpr (St : Stmt) : bool :=
  match St with MemberExpr _ _ _ => true | _ => false end.

Definition isa_LambdaExpr (St : Stmt) : bool :=
  match St with LambdaExpr _ _ _ _ _ _ => true | _ => false end.

Definition isa_SwitchCase (St : Stmt) : bool :=
  match St with SwitchCase _ _ _ => true | _ => false end.

(** Pointers to statements, compared by address; [None] is the null
    pointer. *)
Definition Ptr : Type := option nat.

Definition addrOf (E : option Stmt) : Ptr :=
  match E with Some St => Some (Addr (info St)) | None => None end.

Definition Ptr_eqb (A B : Ptr) : bool :=
  match A, B with
  | None, None => true
  | Some a, Some b => Nat.eqb a b
  | _, _ => false
  end.

Definition ptr_eqb (A B : option Stmt) : bool := Ptr_eqb (addrOf A) (addrOf B).

(** [Expr::IgnoreImpCasts] *)
Fixpoint IgnoreImpCasts (E : Stmt) : Stmt :=
  match E with
  | ImplicitCastExpr _ Sub => IgnoreImpCasts Sub
  | _ => E
  end.

(** ** Reference collector ([computeReferencedDecls]) *)

(** [FindDeclRefsVisitor::VisitDeclRefExpr], on the visitor's
    [ReferencedDecls].  The hook returns [true] in every case, so the
    traversal is never cut short. *)
Definition VisitDeclRefExpr (D : Decl) (ReferencedDecls : list Decl) : list Decl :=
  if isa_CXXMethodDecl D && ParentIsLambda D
  then ReferencedDecls
  else ReferencedDecls ++ [D].

(** The traversals of [clang::RecursiveASTVisitor] that the visitor relies on,
    with the derived class's [TraverseStmt] as a parameter.  A declaration, a
    type or an attribute is traversed by traversing the statements inside
    it; a null statement is skipped. *)
Section RecursiveASTVisitor.

Variable TraverseStmt : Stmt -> list Decl -> list Decl.

Definition TraverseStmts (L : list Stmt) (V : list Decl) : list Decl :=
  fold_left (fun V St => TraverseStmt St V) L V.

Definition TraverseOptStmt (O : option Stmt) (V : list Decl) : list Decl :=
  match O with Some St => TraverseStmt St V | None => V end.

Definition TraverseDecl (D : DeclNode Stmt) (V : list Decl) : list Decl :=
  TraverseStmts (DeclStmts D) V.

Definition TraverseParmVarDecl (D : DeclNode Stmt) (V : list Decl) : list Decl :=
  TraverseDecl D V.

Definition TraverseType (T : list Stmt) (V : list Decl) : list Decl :=
  TraverseStmts T V.

Definition TraverseAttr (A : list Stmt) (V : list Decl) : list Decl :=
  TraverseStmts A V.

Definition TraverseLambdaCapture (C : LambdaCapture Stmt) (Init : option Stmt)
    (V : list Decl) : list Decl :=
  if IsInitCapture C then TraverseDecl (CapturedVar C) V
  else TraverseOptStmt Init V.

(** [FindDeclRefsVisitor::TraverseLambdaExpr]: captures, requires clause,
    explicit template parameters, then return type, parameters and attributes
    of the call operator.  The body is not traversed. *)
Definition TraverseLambdaExpr
    (captures : list (LambdaCapture Stmt * option Stmt))
    (RequiresClause : option Stmt)
    (ExplicitTemplateParameters : list (DeclNode Stmt))
    (CallOperator : option (CallOperatorNode Stmt))
    (V : list Decl) : list Decl :=
  let V := fold_left
             (fun V CI => TraverseLambdaCapture (fst CI) (snd CI) V) captures V in
  let V := match RequiresClause with
           | Some RC => TraverseStmt RC V
           | None => V
           end in
  let V := fold_left (fun V TP => TraverseDecl TP V)
             ExplicitTemplateParameters V in
  match CallOperator with
  | Some CO =>
      let V := TraverseType (DeclaredReturnType CO) V in
      let V := fold_left (fun V P => TraverseParmVarDecl P V) (parameters CO) V in
      fold_left (fun V A => TraverseAttr A V) (attrs CO) V
  | None => V
  end.

End RecursiveASTVisitor.

Fixpoint TraverseStmt (St : Stmt) (V : list Decl) {struct St} : list Decl :=
  match St with
  | DeclRefExpr _ D => VisitDeclRefExpr D V
  | LambdaExpr _ caps req tps co _ =>
      TraverseLambdaExpr TraverseStmt caps req tps co V
  | BinaryOperator _ _ L R => TraverseStmt R (TraverseStmt L V)
  | CXXOperatorCallExpr _ _ _ Callee Args =>
      TraverseStmts TraverseStmt Args (TraverseStmt Callee V)
  | CallExpr _ Callee Args =>
      TraverseStmts TraverseStmt Args (TraverseStmt Callee V)
  | MemberExpr _ Base _ => TraverseStmt Base V
  | CXXThisExpr _ _ => V
  | ImplicitCastExpr _ Sub => TraverseStmt Sub V
  | ObjCPropertyRefExpr _ _ Sub => TraverseStmts TraverseStmt Sub V
  | OtherExpr _ Sub => TraverseStmts TraverseStmt Sub V
  | CompoundStmt _ Body => TraverseStmts TraverseStmt Body V
  | DeclStmt _ Decls =>
      fold_left (fun V D => TraverseDecl TraverseStmt D V) Decls V
  | AttributedStmt _ Sub => TraverseStmt Sub V
  | ReturnStmt _ R => TraverseOptStmt TraverseStmt R V
  | WhileStmt _ C B => TraverseStmt B (TraverseStmt C V)
  | DoStmt _ B C => TraverseStmt C (TraverseStmt B V)
  | ForStmt _ In C Inc B =>
      TraverseStmt B
        (TraverseOptStmt TraverseStmt Inc
           (TraverseOptStmt TraverseStmt C
              (TraverseOptStmt TraverseStmt In V)))
  | CXXForRangeStmt _ LV RI B =>
      TraverseStmt B (TraverseStmt RI (TraverseStmt LV V))
  | IfStmt _ C T E =>
      TraverseOptStmt TraverseStmt E (TraverseStmt T (TraverseStmt C V))
  | SwitchCase _ _ Sub => TraverseStmts TraverseStmt Sub V
  | OtherStmt _ Sub => TraverseStmts TraverseStmt Sub V
  end.

(** Returns all the Decls referenced inside the given Expr. *)
Definition computeReferencedDecls (Expr : Stmt) : list Decl :=
  TraverseStmt Expr [].

(** ** Selection tree *)

(** [SelectionTree::Selection] *)
Inductive SelectionKind : Type := Unselected | Partial | Complete.

Definition SelectionKind_eqb (A B : SelectionKind) : bool :=
  match A, B with
  | Unselected, Unselected | Partial, Partial | Complete, Complete => true
  | _, _ => false
  end.

(** [DynTypedNode]: a statement, a declaration, or another kind of node (a
    type location, a nested-name specifier, ...) of which only the range is
    read. *)
Inductive DynTypedNode : Type :=
| DTN_Stmt (St : Stmt)
| DTN_Decl (D : Decl)
| DTN_Other (R : SourceRange).

Definition get_Stmt (N : DynTypedNode) : option Stmt :=
  match N with DTN_Stmt St => Some St | _ => None end.

Definition get_Expr (N : DynTypedNode) : option Stmt :=
  match N with
  | DTN_Stmt St => if isa_Expr St then Some St else None
  | _ => None
  end.

Definition get_VarDecl (N : DynTypedNode) : option Decl :=
  match N with
  | DTN_Decl D => if isa_VarDecl D then Some D else None
  | _ => None
  end.

Definition get_ParmVarDecl (N : DynTypedNode) : option Decl :=
  match N with
  | DTN_Decl D => if isa_ParmVarDecl D then Some D else None
  | _ => None
  end.

Definition nodeSourceRange (N : DynTypedNode) : SourceRange :=
  match N with
  | DTN_Stmt St => getSourceRange St
  | DTN_Decl D => DeclRange D
  | DTN_Other R => R
  end.

Definition isSome {A : Type} (O : option A) : bool :=
  match O with Some _ => true | None => false end.

(** The nodes of a selection tree, as owned by the tree. *)
Inductive TreeNode : Type :=
  mkTreeNode { nodeAST : DynTypedNode;
               nodeSelected : SelectionKind;
               nodeChildren : list TreeNode }.

(** [const SelectionTree::Node *]: a node in its place, with its ancestors
    from the parent up to the root. *)
Record Node : Type := mkNode { This : TreeNode; Up : list TreeNode }.

Definition ASTNode (N : Node) : DynTypedNode := nodeAST (This N).
Definition Selected (N : Node) : SelectionKind := nodeSelected (This N).

Definition Parent (N : Node) : option Node :=
  match Up N with
  | [] => None
  | P :: Up' => Some (mkNode P Up')
  end.

Definition Children (N : Node) : list Node :=
  map (fun C => mkNode C (This N :: Up N)) (nodeChildren (This N)).

(** Modelled from the spec: [SelectionTree::Node::ignoreImplicit] lives in
    clangd's Selection.cpp, outside the sources at hand.  It descends
    through a node's only child for as long as the child covers the same
    source range, and so skips implicit wrapper nodes. *)
Fixpoint ignoreImplicit_from (T : TreeNode) (Up : list TreeNode) : Node :=
  match nodeChildren T with
  | [C] =>
      if range_eqb (nodeSourceRange (nodeAST C)) (nodeSourceRange (nodeAST T))
      then ignoreImplicit_from C (T :: Up)
      else mkNode T Up
  | _ => mkNode T Up
  end.

Definition ignoreImplicit (N : Node) : Node := ignoreImplicit_from (This N) (Up N).

(** Modelled from the spec: [SelectionTree::Node::outerImplicit] lives in
    clangd's Selection.cpp, outside the sources at hand.  It ascends to the
    parent for as long as the parent covers the same source range, and so
    wraps a node in its implicit parents. *)
Fixpoint outerImplicit_from (T : TreeNode) (Up : list TreeNode) : Node :=
  match Up with
  | P :: Up' =>
      if range_eqb (nodeSourceRange (nodeAST P)) (nodeSourceRange (nodeAST T))
      then outerImplicit_from P Up'
      else mkNode T Up
  | [] => mkNode T Up
  end.

Definition outerImplicit (N : Node) : Node := outerImplicit_from (This N) (Up N).

(** ** Extraction context *)

Definition BuiltinKind_eqb (A B : BuiltinKind) : bool :=
  match A, B with
  | BK_Void, BK_Void | BK_Bool, BK_Bool | BK_Int, BK_Int
  | BK_Double, BK_Double | BK_PseudoObject, BK_PseudoObject
  | BK_OtherBuiltin, BK_OtherBuiltin => true
  | _, _ => false
  end.

Definition hasPlaceholderType (E : Stmt) (K : BuiltinKind) : bool :=
  match getType E with
  | Some (BuiltinType K') => BuiltinKind_eqb K' K
  | _ => false
  end.

Definition computeVariableType (Expr : Stmt) (Ctx : ASTContext) : QualType :=
  if CPlusPlus11 (getLangOpts Ctx) then getAutoDeductType Ctx
  else if hasPlaceholderType Expr BK_PseudoObject then
    match Expr with
    | ObjCPropertyRefExpr _ PR _ =>
        if isMessagingSetter PR then None
        else if isMessagingGetter PR then
          if isExplicitProperty PR then ExplicitPropertyType PR
          else ImplicitGetterReturnType PR
        else getType Expr
    | _ => None
    end
  else getType Expr.

(** Checks whether extracting before [Scope] will take a variable reference
    out of scope: returns [true] if the Expr doesn't reference any variable
    declared in [Scope]. *)
Definition exprIsValidOutside (SM : SourceManager) (ReferencedDecls : list Decl)
    (Scope : Stmt) : bool :=
  let ScopeBegin := getBeginLoc Scope in
  let ScopeEnd := getEndLoc Scope in
  negb (existsb
          (fun ReferencedDecl =>
             isValid (declBeginLoc ReferencedDecl) &&
             isPointWithin SM (declBeginLoc ReferencedDecl) ScopeBegin ScopeEnd &&
             isPointWithin SM (declEndLoc ReferencedDecl) ScopeBegin ScopeEnd)
          ReferencedDecls).

(** The lambda [CanExtractOutside] of [computeInsertionPoint].  The source
    reads [InsertionPoint->Parent] without a test; the loop calls it only
    behind [CurNode->Parent &&]. *)
Definition CanExtractOutside (InsertionPoint : Node) : bool :=
  match get_Stmt (ASTNode InsertionPoint) with
  | Some St =>
      if isa_Expr St then
        match Parent InsertionPoint with
        | Some P => negb (isSome (get_ParmVarDecl (ASTNode P)))
        | None => true
        end
      else
        match St with
        | AttributedStmt _ _ | CompoundStmt _ _ | CXXForRangeStmt _ _ _ _
        | DeclStmt _ _ | DoStmt _ _ _ | ForStmt _ _ _ _ _ | IfStmt _ _ _ _
        | ReturnStmt _ _ | WhileStmt _ _ _ => true
        | _ => false
        end
  | None => isSome (get_VarDecl (ASTNode InsertionPoint))
  end.

(** The [for] loop of [computeInsertionPoint], from [CurNode] upwards. *)
Fixpoint insertionPointFrom (SM : SourceManager) (ReferencedDecls : list Decl)
    (CurNode : TreeNode) (Ancestors : list TreeNode) : option Stmt :=
  match Ancestors with
  | [] => None
  | P :: Above =>
      if negb (CanExtractOutside (mkNode CurNode Ancestors)) then None
      else
        let CurInsertionPoint := get_Stmt (nodeAST CurNode) in
        if match CurInsertionPoint with
           | Some St => negb (exprIsValidOutside SM ReferencedDecls St)
           | None => false
           end
        then None
        else
          match get_Stmt (nodeAST P) with
          | Some CurParent =>
              if isa_CompoundStmt CurParent then
                if isMacroID (getBeginLoc CurParent)
                then insertionPointFrom SM ReferencedDecls P Above
                else CurInsertionPoint
              else insertionPointFrom SM ReferencedDecls P Above
          | None => insertionPointFrom SM ReferencedDecls P Above
          end
  end.

(** Return the Stmt before which we need to insert the extraction. *)
Definition computeInsertionPoint (SM : SourceManager) (ReferencedDecls : list Decl)
    (ExprNode : Node) : option Stmt :=
  insertionPointFrom SM ReferencedDecls (This ExprNode) (Up ExprNode).

Record ExtractionContext : Type :=
  { Extractable : bool;
    Expr : Stmt;
    VarType : QualType;
    ExprNode : Node;
    InsertionPoint : option Stmt;
    SM : SourceManager;
    Ctx : ASTContext;
    ReferencedDecls : list Decl }.

Definition getExpr (EC : ExtractionContext) : Stmt := Expr EC.
Definition getExprNode (EC : ExtractionContext) : Node := ExprNode EC.
Definition isExtractable (EC : ExtractionContext) : bool := Extractable EC.

(** [ExtractionContext::ExtractionContext].  The constructor reads the
    expression of [Node] without a test; on a node that is no expression
    there is no defined result. *)
Definition newExtractionContext (Node : Node) (SM : SourceManager)
    (Ctx : ASTContext) : option ExtractionContext :=
  match get_Expr (ASTNode Node) with
  | None => None
  | Some Expr =>
      let ReferencedDecls := computeReferencedDecls Expr in
      let InsertionPoint := computeInsertionPoint SM ReferencedDecls Node in
      let Extractable := false in
      let Extractable := if isSome InsertionPoint then true else Extractable in
      let VarType := computeVariableType Expr Ctx in
      let Extractable := if isNull VarType then false else Extractable in
      let VarType := if isNull VarType then VarType
                     else stripOuterNullability VarType in
      Some {| Extractable := Extractable;
              Expr := Expr;
              VarType := VarType;
              ExprNode := Node;
              InsertionPoint := InsertionPoint;
              SM := SM;
              Ctx := Ctx;
              ReferencedDecls := ReferencedDecls |}
  end.

(** ** Binary subexpressions like [a + [[b + c]] + d] *)

(** Information extracted about a binary operator encountered in a
    SelectionTree.  [parse] returns [None] where the source returns [false];
    no caller reads the fields after a failed parse. *)
Module ParsedBinaryOperator.

Record t : Type :=
  { Kind : BinaryOperatorKind;
    ExprLoc : SourceLocation;
    SelectedOperands : list Node }.

(** [E == Op->getArg(I)]; an argument of a call is never null. *)
Definition isArg (E : option Stmt) (Args : list Stmt) (I : nat) : bool :=
  match E, nth_error Args I with
  | Some e, Some a => Nat.eqb (Addr (info e)) (Addr (info a))
  | _, _ => false
  end.

Definition parse (N : Node) : option t :=
  match get_Expr (ASTNode N) with
  | Some (BinaryOperator _ Opcode _ _ as Op) =>
      Some {| Kind := Opcode;
              ExprLoc := getExprLoc Op;
              SelectedOperands := Children N |}
  | Some (CXXOperatorCallExpr _ InfixBinaryOp OverloadedOpcode _ Args as Op) =>
      if negb InfixBinaryOp then None
      else
        Some {| Kind := OverloadedOpcode;
                ExprLoc := getExprLoc Op;
                SelectedOperands :=
                  filter (fun Child =>
                            let E := get_Expr (ASTNode Child) in
                            isArg E Args 0 || isArg E Args 1)
                         (Children N) |}
  | _ => None
  end.

Definition associative (Op : t) : bool :=
  match Kind Op with
  | BO_Add | BO_Mul | BO_And | BO_Or | BO_Xor | BO_LAnd | BO_LOr => true
  | _ => false
  end.

(** The loop of [crossesMacroBoundary]; a selected operand that is not an
    expression is dereferenced as one. *)
Fixpoint crossesFrom (SM : SourceManager) (F : FileID) (Operands : list Node)
    : option bool :=
  match Operands with
  | [] => Some false
  | Child :: Rest =>
      match get_Expr (ASTNode Child) with
      | None => None
      | Some E =>
          if negb (Nat.eqb (getFileID SM (getExprLoc E)) F) then Some true
          else crossesFrom SM F Rest
      end
  end.

Definition crossesMacroBoundary (SM : SourceManager) (Op : t) : option bool :=
  crossesFrom SM (getFileID SM (ExprLoc Op)) (SelectedOperands Op).

End ParsedBinaryOperator.

Import ParsedBinaryOperator.

(** How the [while] loop of [getBinaryOperatorRange] ends. *)
Inductive PushDown : Type :=
| Stopped (Start : Node)      (* the loop is left with this [Start] *)
| Undefined                   (* front() of an empty vector, a null operand *)
| MoreSteps.                  (* the step bound is used up *)

(** The [while] loop of [getBinaryOperatorRange], for at most [Steps]
    evaluations of its condition. *)
Fixpoint pushDownStart (Steps : nat) (SM : SourceManager)
    (OuterOp : BinaryOperatorKind) (Start : Node) : PushDown :=
  match Steps with
  | O => MoreSteps
  | S Steps' =>
      match parse (ignoreImplicit Start) with
      | None => Stopped Start
      | Some Op =>
          if negb (BinaryOperatorKind_eqb (Kind Op) OuterOp) then Stopped Start
          else
            match crossesMacroBoundary SM Op with
            | None => Undefined
            | Some true => Stopped Start
            | Some false =>
                match SelectedOperands Op with
                | [] => Undefined
                | [OnlyRHS] => Stopped OnlyRHS
                | OpLHS :: _ => pushDownStart Steps' SM OuterOp OpLHS
                end
            end
      end
  end.

Fixpoint height (T : TreeNode) : nat :=
  S (fold_right (fun C M => Nat.max (height C) M) 0 (nodeChildren T)).

(** [getBinaryOperatorRange]: the invalid range where the source returns
    [SourceRange()], [None] where it has no defined result.  The loop gets
    as many steps as the tree below [N] is high, which is always enough
    ([pushDownStart_enough]). *)
Definition getBinaryOperatorRange (N : Node) (SM : SourceManager)
    (LangOpts : LangOptions) : option SourceRange :=
  match parse (ignoreImplicit N) with
  | None => Some NoRange
  | Some Op =>
      if negb (associative Op) then Some NoRange
      else
        match crossesMacroBoundary SM Op with
        | None => None
        | Some true => Some NoRange
        | Some false =>
            match SelectedOperands Op with
            | [Start; End] =>
                let OuterOp := Kind Op in
                match pushDownStart (height (This N)) SM OuterOp Start with
                | Stopped Start =>
                    match toHalfOpenFileRange SM LangOpts
                            (nodeSourceRange (ASTNode Start)),
                          toHalfOpenFileRange SM LangOpts
                            (nodeSourceRange (ASTNode End))
                    with
                    | Some RS, Some RE => Some (mkRange (getBegin RS) (getEnd RE))
                    | _, _ => None
                    end
                | _ => None
                end
            | _ => Some NoRange
            end
        end
  end.

Definition getExtractionChars (EC : ExtractionContext) : option SourceRange :=
  match getBinaryOperatorRange (ExprNode EC) (SM EC) (getLangOpts (Ctx EC)) with
  | None => None
  | Some BinaryOperatorRange =>
      if rangeIsValid BinaryOperatorRange then Some BinaryOperatorRange
      else toHalfOpenFileRange (SM EC) (getLangOpts (Ctx EC))
             (getSourceRange (Expr EC))
  end.

(** ** Eligibility *)

(** Find the CallExpr whose callee is the (possibly wrapped) DeclRef. *)
Definition getCallExpr (DeclRef : Node) : option Node :=
  let MaybeCallee := outerImplicit DeclRef in
  match Parent MaybeCallee with
  | None => None
  | Some MaybeCall =>
      match get_Expr (ASTNode MaybeCall) with
      | Some (CallExpr _ Callee _)
      | Some (CXXOperatorCallExpr _ _ _ Callee _) =>
          if negb (ptr_eqb (Some Callee) (get_Expr (ASTNode MaybeCallee)))
          then None
          else Some MaybeCall
      | _ => None
      end
  end.

(** Returns true if Inner (which is a direct child of Outer) is appearing as
    a statement rather than an expression whose value can be used. *)
Definition childExprIsDisallowedStmt (Outer Inner : option Stmt) : bool :=
  match Outer, Inner with
  | Some OuterStmt, Some _ =>
      match OuterStmt with
      | SwitchCase _ _ _ => true
      | WhileStmt _ _ Body => ptr_eqb Inner (Some Body)
      | DoStmt _ Body _ => ptr_eqb Inner (Some Body)
      | ForStmt _ _ _ _ Body => ptr_eqb Inner (Some Body)
      | CXXForRangeStmt _ _ _ Body => ptr_eqb Inner (Some Body)
      | IfStmt _ _ Then Else => ptr_eqb Inner (Some Then) || ptr_eqb Inner Else
      | _ => false
      end
  | _, _ => false
  end.

(** The recursive lambda [IsFullySelected] of [eligibleForExtraction]. *)
Fixpoint IsFullySelected (N : TreeNode) : bool :=
  if rangeIsValid (nodeSourceRange (nodeAST N)) &&
     negb (SelectionKind_eqb (nodeSelected N) Complete)
  then false
  else forallb IsFullySelected (nodeChildren N).

(** Check if N can and should be extracted (e.g. is not void-typed). *)
Definition eligibleForExtraction (N : Node) : bool :=
  match get_Expr (ASTNode N) with
  | None => false
  | Some E =>
      if match getType E with None => true | Some ExprType => isVoidTy ExprType end
      then false
      else if isa_DeclRefExpr E then false
      else if match E with
              | MemberExpr _ Base _ =>
                  match IgnoreImpCasts Base with
                  | CXXThisExpr _ Implicit => Implicit
                  | _ => false
                  end
              | _ => false
              end
      then false
      else
        let BinOp := parse N in
        let IsBinOp := isSome BinOp in
        if match BinOp with Some Op => isAssignmentOp (Kind Op) | None => false end
        then false
        else
          let OuterImplicit := outerImplicit N in
          match Parent OuterImplicit with
          | None => false
          | Some Parent =>
              if childExprIsDisallowedStmt (get_Stmt (ASTNode Parent))
                   (get_Expr (ASTNode OuterImplicit))
              then false
              else
                let ExprIsFullySelectedTargetNode := fun E' : Ptr =>
                  if negb (Ptr_eqb E' (addrOf (get_Expr (ASTNode OuterImplicit))))
                  then false
                  else if negb IsBinOp then true
                  else IsFullySelected (This N) in
                if match get_Stmt (ASTNode Parent) with
                   | Some (BinaryOperator _ Opcode _ RHS) =>
                       isAssignmentOp Opcode &&
                       ExprIsFullySelectedTargetNode (addrOf (Some RHS))
                   | _ => false
                   end
                then false
                else if isa_LambdaExpr E
                then SelectionKind_eqb (Selected N) Complete
                else if match get_VarDecl (ASTNode Parent) with
                        | Some Decl =>
                            negb (InitCapture Decl) &&
                            ExprIsFullySelectedTargetNode (Init Decl)
                        | None => false
                        end
                then false
                else true
          end
  end.

(** Find the Expr node that we're going to extract. *)
Definition computeExtractedExpr (N : option Node) : option Node :=
  match N with
  | None => None
  | Some N =>
      let TargetNode := N in
      match get_Expr (ASTNode N) with
      | None => None
      | Some SelectedExpr =>
          let TargetNode :=
            if isa_DeclRefExpr SelectedExpr || isa_MemberExpr SelectedExpr
            then match getCallExpr N with
                 | Some Call => Call
                 | None => TargetNode
                 end
            else TargetNode in
          if match SelectedExpr with
             | BinaryOperator _ BO_Assign _ _ => true
             | _ => false
             end
          then None
          else if negb (eligibleForExtraction TargetNode) then None
          else Some TargetNode
      end
  end.

(** ** The tweak *)

(** What [prepare] and [apply] read from [Tweak::Selection]. *)
Record Selection : Type :=
  { SelectionBegin : nat;
    SelectionEnd : nat;
    getSourceManager : SourceManager;
    getASTContext : ASTContext;
    (** [Inputs.ASTSelection.commonAncestor()] *)
    commonAncestor : option Node }.

(** [ExtractVariable::prepare], on the member [Target]: the answer and the
    new value of [Target]. *)
Definition prepare (Inputs : Selection) (Target : option ExtractionContext)
    : option (bool * option ExtractionContext) :=
  if Nat.eqb (SelectionBegin Inputs) (SelectionEnd Inputs)
  then Some (false, Target)
  else
    let Ctx := getASTContext Inputs in
    let SM := getSourceManager Inputs in
    match computeExtractedExpr (commonAncestor Inputs) with
    | Some N =>
        match newExtractionContext N SM Ctx with
        | Some EC => Some (isExtractable EC, Some EC)
        | None => None
        end
    | None =>
        Some (match Target with
              | Some EC => isExtractable EC
              | None => false
              end, Target)
    end.

(** [tooling::Replacement (SM, Start, Length, Text)] *)
Record Replacement : Type :=
  { FilePath : FileID;
    Offset : Z;
    Length : Z;
    ReplacementText : string }.

Definition newReplacement (SM : SourceManager) (Start : SourceLocation)
    (Length : Z) (Text : string) : Replacement :=
  {| FilePath := getFileID SM Start;
     Offset := getFileOffset SM Start;
     Length := Length;
     ReplacementText := Text |}.

(** Returns the replacement for substituting the extraction with VarName;
    the length is an [unsigned] difference. *)
Definition replaceWithVar (EC : ExtractionContext) (Chars : SourceRange)
    (VarName : string) : Replacement :=
  let ExtractionLength :=
    ((getFileOffset (SM EC) (getEnd Chars) -
      getFileOffset (SM EC) (getBegin Chars)) mod 2 ^ 32)%Z in
  newReplacement (SM EC) (getBegin Chars) ExtractionLength VarName.

Section Tweak.

(** clangd's [printType (QT, DeclContext, Placeholder)], given the node whose
    declaration context is printed in. *)
Variable printType : QualType -> Node -> string -> string.

(** Returns the Replacement for declaring a new variable storing the
    extraction.  The insertion point and its file range are read without a
    test. *)
Definition insertDeclaration (EC : ExtractionContext) (VarName : string)
    (InitializerChars : SourceRange) (AddSemicolon : bool) : option Replacement :=
  let ExtractionCode := toSourceCode (SM EC) InitializerChars in
  match InsertionPoint EC with
  | None => None
  | Some IP =>
      match toHalfOpenFileRange (SM EC) (getLangOpts (Ctx EC)) (getSourceRange IP) with
      | None => None
      | Some R =>
          let InsertionLoc := getBegin R in
          let ExtractedVarDecl :=
            (printType (VarType EC) (ExprNode EC) VarName ++ " = " ++ ExtractionCode)%string in
          let ExtractedVarDecl :=
            if AddSemicolon then (ExtractedVarDecl ++ "; ")%string
            else ExtractedVarDecl in
          Some (newReplacement (SM EC) InsertionLoc 0 ExtractedVarDecl)
      end
  end.

(** [tooling::Replacements] and its [add], which fails with an error or
    yields the extended set. *)
Variable Error : Type.
Definition Replacements : Type := list Replacement.
Variable add : Replacements -> Replacement -> Error + Replacements.

Record Effect : Type := mainFileEdit { ApplyEdits : Replacements }.

(** [ExtractVariable::apply]: [None] where the source has no defined result,
    otherwise the error or the effect. *)
Definition apply (Inputs : Selection) (Target : option ExtractionContext)
    : option (Error + Effect) :=
  match Target with
  | None => None
  | Some Target =>
      let Result : Replacements := [] in
      let VarName := "placeholder"%string in
      match getExtractionChars Target with
      | None => None
      | Some Range =>
          let OuterImplicit := outerImplicit (getExprNode Target) in
          match Parent OuterImplicit with
          | None => None
          | Some OuterParent =>
              let IsExprStmt :=
                match get_Stmt (ASTNode OuterParent) with
                | Some St => isa_CompoundStmt St
                | None => false
                end in
              match insertDeclaration Target VarName Range (negb IsExprStmt) with
              | None => None
              | Some Declaration =>
                  match add Result Declaration with
                  | inl Err => Some (inl Err)
                  | inr Result =>
                      let VarName := if IsExprStmt then EmptyString else VarName in
                      match add Result (replaceWithVar Target Range VarName) with
                      | inl Err => Some (inl Err)
                      | inr Result => Some (inr (mainFileEdit Result))
                      end
                  end
              end
          end
      end
  end.

End Tweak.

(** ** Pass manager command-line options
    ([mlir/lib/Pass/PassManagerOptions.cpp])

    The pass manager is the trace of the calls made on it; the diagnostics
    emitted on its context are kept beside it.  The filters never read their
    operation argument, so a filter is a predicate on passes; the empty
    [std::function] is [None]. *)

Module PassManagerCL.

(** [mlir::PassDisplayMode] *)
Inductive PassDisplayMode : Type := DisplayList | DisplayPipeline.

(** A pass registry entry ([PassInfo]), by identity. *)
Definition PassInfo : Type := nat.

(** What a filter reads from a [Pass]. *)
Record Pass : Type := { lookupPassInfo : option PassInfo }.

(** What the file asks of a [PassNameCLParser], the passes named by one
    command-line option. *)
Record PassNameCLParser : Type :=
  { hasAnyOccurrences : bool; contains : PassInfo -> bool }.

(** The option values of [struct PassManagerOptions]; of [reproducerFile]
    also the number of its occurrences. *)
Record PassManagerOptions : Type :=
  { reproducerFile : string;
    reproducerFileOccurrences : nat;
    localReproducer : bool;
    printBefore : PassNameCLParser;
    printAfter : PassNameCLParser;
    printBeforeAll : bool;
    printAfterAll : bool;
    printAfterChange : bool;
    printAfterFailure : bool;
    printModuleScope : bool;
    printTreeDir : string;
    passStatistics : bool;
    passStatisticsDisplayMode : PassDisplayMode }.

Definition Filter : Type := option (Pass -> bool).

(** The calls the file makes on a [PassManager]. *)
Inductive Call : Type :=
| enableCrashReproducerGeneration (File : string) (Local : bool)
| enableStatistics (Mode : PassDisplayMode)
| enableIRPrinting (Before After : Filter)
    (ModuleScope AfterChange AfterFailure : bool)
| enableIRPrintingToFileTree (Before After : Filter)
    (ModuleScope AfterChange AfterFailure : bool) (TreeDir : string).

Record PassManager : Type :=
  { isMultithreadingEnabled : bool;
    diagnostics : list string;
    calls : list Call }.

Definition call (pm : PassManager) (C : Call) : PassManager :=
  {| isMultithreadingEnabled := isMultithreadingEnabled pm;
     diagnostics := diagnostics pm;
     calls := calls pm ++ [C] |}.

Definition emitError (pm : PassManager) (Message : string) : PassManager :=
  {| isMultithreadingEnabled := isMultithreadingEnabled pm;
     diagnostics := diagnostics pm ++ [Message];
     calls := calls pm |}.

Inductive LogicalResult : Type := success | failure.

Definition isEmpty (s : string) : bool :=
  match s with EmptyString => true | _ => false end.

(** The filter of the passes that a parser names. *)
Definition namedFilter (Parser : PassNameCLParser) : Pass -> bool :=
  fun pass =>
    match lookupPassInfo pass with
    | Some passInfo => contains Parser passInfo
    | None => false
    end.

(** Add an IR printing instrumentation if enabled by any 'print-ir' flags. *)
Definition addPrinterInstrumentation (options : PassManagerOptions)
    (pm : PassManager) : PassManager :=
  let shouldPrintBeforePass : Filter :=
    if printBeforeAll options then Some (fun _ => true)
    else if hasAnyOccurrences (printBefore options)
    then Some (namedFilter (printBefore options))
    else None in
  let shouldPrintAfterPass : Filter :=
    if printAfterAll options || printAfterFailure options
    then Some (fun _ => true)
    else if hasAnyOccurrences (printAfter options)
    then Some (namedFilter (printAfter options))
    else None in
  match shouldPrintBeforePass, shouldPrintAfterPass with
  | None, None => pm
  | _, _ =>
      if negb (isEmpty (printTreeDir options))
      then call pm (enableIRPrintingToFileTree shouldPrintBeforePass
                      shouldPrintAfterPass (printModuleScope options)
                      (printAfterChange options) (printAfterFailure options)
                      (printTreeDir options))
      else call pm (enableIRPrinting shouldPrintBeforePass shouldPrintAfterPass
                      (printModuleScope options) (printAfterChange options)
                      (printAfterFailure options))
  end.

(** The values of the options when no flag is given. *)
Definition defaultOptions : PassManagerOptions :=
  {| reproducerFile := EmptyString;
     reproducerFileOccurrences := 0;
     localReproducer := false;
     printBefore := {| hasAnyOccurrences := false; contains := fun _ => false |};
     printAfter := {| hasAnyOccurrences := false; contains := fun _ => false |};
     printBeforeAll := false;
     printAfterAll := false;
     printAfterChange := false;
     printAfterFailure := false;
     printModuleScope := false;
     printTreeDir := EmptyString;
     passStatistics := false;
     passStatisticsDisplayMode := DisplayPipeline |}.

(** [mlir::registerPassManagerCLOptions], on the managed static [options]:
    the options struct is constructed if it was not. *)
Definition registerPassManagerCLOptions (options : option PassManagerOptions)
    : option PassManagerOptions :=
  match options with
  | Some o => Some o
  | None => Some defaultOptions
  end.

Definition applyPassManagerCLOptions (options : option PassManagerOptions)
    (pm : PassManager) : LogicalResult * PassManager :=
  match options with
  | None => (failure, pm)
  | Some options =>
      if negb (Nat.eqb (reproducerFileOccurrences options) 0) &&
         localReproducer options && isMultithreadingEnabled pm
      then
        (failure,
         emitError pm
           "Local crash reproduction may not be used without disabling mutli-threading first.")
      else
        let pm :=
          if negb (Nat.eqb (reproducerFileOccurrences options) 0)
          then call pm (enableCrashReproducerGeneration
                          (reproducerFile options) (localReproducer options))
          else pm in
        let pm :=
          if passStatistics options
          then call pm (enableStatistics (passStatisticsDisplayMode options))
          else pm in
        if printModuleScope options && isMultithreadingEnabled pm
        then
          (failure,
           emitError pm
             ("IR print for module scope can't be setup on a pass-manager without disabling multi-threading first."
              ++ String (Ascii.ascii_of_nat 10) EmptyString))
        else (success, addPrinterInstrumentation options pm)
  end.

(** The two conditions under which [applyPassManagerCLOptions] gives up. *)
Definition localReproducerConflict (o : PassManagerOptions) (pm : PassManager)
    : bool :=
  negb (Nat.eqb (reproducerFileOccurrences o) 0) && localReproducer o &&
  isMultithreadingEnabled pm.

Definition moduleScopeConflict (o : PassManagerOptions) (pm : PassManager)
    : bool :=
  printModuleScope o && isMultithreadingEnabled pm.

(** The calls made before IR printing is looked at. *)
Definition earlyCalls (o : PassManagerOptions) : list Call :=
  (if negb (Nat.eqb (reproducerFileOccurrences o) 0)
   then [enableCrashReproducerGeneration (reproducerFile o) (localReproducer o)]
   else []) ++
  (if passStatistics o then [enableStatistics (passStatisticsDisplayMode o)]
   else []).

(** [f] accepts exactly the passes whose registry entry [Parser] names. *)
Definition acceptsNamed (Parser : PassNameCLParser) (f : Pass -> bool) : Prop :=
  forall pass,
    f pass = true <->
    exists passInfo,
      lookupPassInfo pass = Some passInfo /\ contains Parser passInfo = true.

(** A call that installs IR printing. *)
Definition isPrinting (C : Call) : bool :=
  match C with
  | enableIRPrinting _ _ _ _ _ | enableIRPrintingToFileTree _ _ _ _ _ _ => true
  | _ => false
  end.

(** Some print-ir flag asks for printing. *)
Definition wantsPrinting (o : PassManagerOptions) : bool :=
  printBeforeAll o || hasAnyOccurrences (printBefore o) ||
  printAfterAll o || printAfterFailure o || hasAnyOccurrences (printAfter o).

End PassManagerCL.

(** ** Vocabulary of the properties *)

(** *** Reference collector *)

Definition optStmt (O : option Stmt) : list Stmt :=
  match O with Some St => [St] | None => [] end.

Definition captureStmts (CI : LambdaCapture Stmt * option Stmt) : list Stmt :=
  if IsInitCapture (fst CI) then DeclStmts (CapturedVar (fst CI))
  else optStmt (snd CI).

Definition callOperatorStmts (CO : CallOperatorNode Stmt) : list Stmt :=
  DeclaredReturnType CO ++ flat_map (@DeclStmts Stmt) (parameters CO) ++
  List.concat (attrs CO).

(** The statements the collector descends into from a statement: all its
    children, except that of a closure literal the statement body is left
    out while the expressions of its captures, requires clause, explicit
    template parameters and call-operator signature are taken. *)
Definition traversedChildren (St : Stmt) : list Stmt :=
  match St with
  | DeclRefExpr _ _ => []
  | LambdaExpr _ caps req tps co _ =>
      flat_map captureStmts caps ++ optStmt req ++
      flat_map (@DeclStmts Stmt) tps ++
      match co with Some CO => callOperatorStmts CO | None => [] end
  | BinaryOperator _ _ L R => [L; R]
  | CXXOperatorCallExpr _ _ _ Callee Args => Callee :: Args
  | CallExpr _ Callee Args => Callee :: Args
  | MemberExpr _ Base _ => [Base]
  | CXXThisExpr _ _ => []
  | ImplicitCastExpr _ Sub => [Sub]
  | ObjCPropertyRefExpr _ _ Sub => Sub
  | OtherExpr _ Sub => Sub
  | CompoundStmt _ Body => Body
  | DeclStmt _ Decls => flat_map (@DeclStmts Stmt) Decls
  | AttributedStmt _ Sub => [Sub]
  | ReturnStmt _ R => optStmt R
  | WhileStmt _ C B => [C; B]
  | DoStmt _ B C => [B; C]
  | ForStmt _ In C Inc B => optStmt In ++ optStmt C ++ optStmt Inc ++ [B]
  | CXXForRangeStmt _ LV RI B => [LV; RI; B]
  | IfStmt _ C T E => [C; T] ++ optStmt E
  | SwitchCase _ _ Sub => Sub
  | OtherStmt _ Sub => Sub
  end.

(** The visitor hook that the traversal runs on a statement before it
    descends. *)
Definition visitHook (St : Stmt) (V : list Decl) : list Decl :=
  match St with DeclRefExpr _ D => VisitDeclRefExpr D V | _ => V end.

(** [Visits E X]: the collector, started on [E], visits the statement [X]. *)
Inductive Visits : Stmt -> Stmt -> Prop :=
| Visits_here (E : Stmt) : Visits E E
| Visits_below (E C X : Stmt) :
    In C (traversedChildren E) -> Visits C X -> Visits E X.

(** A declaration the visitor hook leaves out: a member function of a
    closure type. *)
Definition isClosureMethod (D : Decl) : bool :=
  isa_CXXMethodDecl D && ParentIsLambda D.

(** [R] is the callee of a call, visited in [E], whose object is a closure
    literal: the closure is invoked where it is written. *)
Definition immediatelyInvokedCallee (E R : Stmt) : Prop :=
  exists i infix opc Callee Obj Args,
    Visits E (CXXOperatorCallExpr i infix opc Callee (Obj :: Args)) /\
    IgnoreImpCasts Callee = R /\
    isa_LambdaExpr (IgnoreImpCasts Obj) = true.

(** The traversal of [St] adds to the visitor exactly the declarations of
    the references it visits that are no closure methods. *)
Definition Collects (St : Stmt) : Prop :=
  forall (V : list Decl) (d : Decl),
    In d (TraverseStmt St V) <->
    In d V \/ exists i, Visits St (DeclRefExpr i d) /\ isClosureMethod d = false.

(** *** Operator chains *)

Definition isAssociativeKind (K : BinaryOperatorKind) : bool :=
  associative {| Kind := K; ExprLoc := InvalidLoc; SelectedOperands := [] |}.

(** *** Insertion point *)

(** The declaration of [D] has a valid range that lies fully inside the
    range of [Scope]. *)
Definition declInside (SM : SourceManager) (D : Decl) (Scope : Stmt) : bool :=
  isValid (declBeginLoc D) &&
  isPointWithin SM (declBeginLoc D) (getBeginLoc Scope) (getEndLoc Scope) &&
  isPointWithin SM (declEndLoc D) (getBeginLoc Scope) (getEndLoc Scope).

(** A block of sequential statements that is not produced by a macro. *)
Definition isBlock (St : Stmt) : bool :=
  isa_CompoundStmt St && negb (isMacroID (getBeginLoc St)).

Definition isBlockNode (T : TreeNode) : bool :=
  match get_Stmt (nodeAST T) with Some St => isBlock St | None => false end.


(** *** Eligibility *)



(** The node [computeExtractedExpr] settles on before it asks for
    eligibility: the enclosing call for a callee name, else the node. *)
Definition chosenCandidate (N : Node) : Node :=
  match get_Expr (ASTNode N) with
  | Some SelectedExpr =>
      if isa_DeclRefExpr SelectedExpr || isa_MemberExpr SelectedExpr
      then match getCallExpr N with Some Call => Call | None => N end
      else N
  | None => N
  end.

(** *** Edits *)

(** [tooling::Range::overlapsWith] on the ranges of two replacements. *)
Definition overlapsWith (A B : Replacement) : bool :=
  ((Offset A + Length A >? Offset B) && (Offset A <? Offset B + Length B))%Z.

Inductive ReplacementError : Type := wrong_file_path | overlap_conflict.

(** Modelled from the spec: [tooling::Replacements::add] belongs to clang's
    tooling library, outside the sources at hand.  The edit set accepts
    edits anchored to one buffer and reports a conflict for an edit whose
    range overlaps one it holds. *)
Definition addReplacement (Rs : list Replacement) (R : Replacement)
    : ReplacementError + list Replacement :=
  if existsb (fun R' => negb (Nat.eqb (FilePath R') (FilePath R))) Rs
  then inl wrong_file_path
  else if existsb (overlapsWith R) Rs then inl overlap_conflict
  else inr (Rs ++ [R]).

(** What an edit set guarantees when it accepts an edit: the new set holds
    the edit besides the old ones, all of which lie in the same buffer and
    none of which overlaps it. *)
Definition addContract {Error : Type}
    (add : list Replacement -> Replacement -> Error + list Replacement) : Prop :=
  forall Rs R Rs',
    add Rs R = inr Rs' ->
    Permutation Rs' (R :: Rs) /\
    Forall (fun R' => FilePath R' = FilePath R /\ overlapsWith R R' = false) Rs.

(** The extraction is a statement of its own: the parent of the candidate,
    wrapped in its implicit parents, is a compound statement. *)
Definition isExprStmt (OuterParent : Node) : bool :=
  match get_Stmt (ASTNode OuterParent) with
  | Some St => isa_CompoundStmt St
  | None => false
  end.

(** The declaration without a closing semicolon. *)
Definition declarationText (printType : QualType -> Node -> string -> string)
    (EC : ExtractionContext) (Chars : SourceRange) : string :=
  (printType (VarType EC) (ExprNode EC) "placeholder" ++ " = " ++
   toSourceCode (SM EC) Chars)%string.

(** The two edits of an extraction: the declaration, inserted where the file
    range [R] of the insertion point begins, and the substitution of the
    extraction range [Chars]. *)
Definition declarationEdit (printType : QualType -> Node -> string -> string)
    (EC : ExtractionContext) (Chars R : SourceRange) (OuterParent : Node)
    : Replacement :=
  newReplacement (SM EC) (getBegin R) 0
    (if isExprStmt OuterParent then declarationText printType EC Chars
     else (declarationText printType EC Chars ++ "; ")%string).

Definition substitutionEdit (EC : ExtractionContext) (Chars : SourceRange)
    (OuterParent : Node) : Replacement :=
  replaceWithVar EC Chars
    (if isExprStmt OuterParent then EmptyString else "placeholder"%string).

(** *** Path of the insertion-point search *)

(** A node and its ancestors, each in its place, from the node upwards. *)
Fixpoint ancestorsOrSelfFrom (T : TreeNode) (Anc : list TreeNode) : list Node :=
  mkNode T Anc ::
  match Anc with
  | [] => []
  | P :: Above => ancestorsOrSelfFrom P Above
  end.

Definition ancestorsOrSelf (N : Node) : list Node :=
  ancestorsOrSelfFrom (This N) (Up N).

(** The search neither stops nor aborts at [N]: one may extract out of [N],
    and if [N] is a statement, no referenced entity is declared inside it. *)
Definition mayPass (SM : SourceManager) (Decls : list Decl) (N : Node) : bool :=
  CanExtractOutside N &&
  match get_Stmt (ASTNode N) with
  | Some St => exprIsValidOutside SM Decls St
  | None => true
  end.

(** *** Selection subtrees *)

(** [InSubtree X T]: the node [X] is [T] or lies below it. *)
Inductive InSubtree : TreeNode -> TreeNode -> Prop :=
| InSubtree_root (T : TreeNode) : InSubtree T T
| InSubtree_child (X C T : TreeNode) :
    In C (nodeChildren T) -> InSubtree X C -> InSubtree X T.

(** ** Test programs *)

Module Fixture.

(** The source manager of a single buffer whose range-closing tokens are one
    character long: locations are offsets into the buffer, file locations
    belong to file 1 and macro locations to the expansion 2. *)
Definition rawOf (L : SourceLocation) : nat :=
  match L with InvalidLoc => 0 | FileLoc n => n | MacroLoc n => n end.

Definition fileSM (Buffer : string) : SourceManager :=
  {| getFileID := fun L =>
       match L with InvalidLoc => 0 | FileLoc _ => 1 | MacroLoc _ => 2 end;
     getFileOffset := fun L => Z.of_nat (rawOf L);
     isPointWithin := fun L B E =>
       Loc.eqb L B || Loc.eqb L E ||
       (Nat.ltb (rawOf B) (rawOf L) && Nat.ltb (rawOf L) (rawOf E));
     toHalfOpenFileRange := fun _ R =>
       match getBegin R, getEnd R with
       | FileLoc b, FileLoc e => Some (mkRange (FileLoc b) (FileLoc (e + 1)))
       | _, _ => None
       end;
     toSourceCode := fun R =>
       substring (rawOf (getBegin R)) (rawOf (getEnd R) - rawOf (getBegin R))
         Buffer |}.

Definition cxx17 : ASTContext := {| getLangOpts := {| CPlusPlus11 := true |} |}.

Definition tok (b e : nat) : SourceRange := mkRange (FileLoc b) (FileLoc e).

Definition intTy : QualType := Some (BuiltinType BK_Int).

(** An expression of type [int] at address [addr] over the tokens from [b]
    to [e], with expression location [loc]. *)
Definition expr (addr b e loc : nat) : StmtInfo :=
  {| Addr := addr; Range := tok b e; OpLoc := FileLoc loc; Ty := intTy |}.

(** A statement at address [addr] over the tokens from [b] to [e]. *)
Definition stmt (addr b e : nat) : StmtInfo :=
  {| Addr := addr; Range := tok b e; OpLoc := FileLoc b; Ty := None |}.

Definition decl (addr : nat) (K : DeclKind) (R : SourceRange) : Decl :=
  {| DeclAddr := addr; KindOf := K; DeclRange := R;
     ParentIsLambda := false; InitCapture := false; Init := None |}.

Definition leaf (St : Stmt) (Sel : SelectionKind) : TreeNode :=
  mkTreeNode (DTN_Stmt St) Sel [].

Definition printAuto (T : QualType) (N : Node) (Name : string) : string :=
  ("auto " ++ Name)%string.

(** *** An operator chain [x0 op x1 op ... op xk]

    The operand [xk] is the one-character name at offset [4 * k], the
    operator to its left stands at offset [4 * k - 2]. *)

Definition operand (k : nat) : Stmt :=
  DeclRefExpr (expr (2 * k + 1) (4 * k) (4 * k) (4 * k))
    (decl (1000 + k) DK_ParmVar NoRange).

Fixpoint chainExpr (Op : BinaryOperatorKind) (k : nat) : Stmt :=
  match k with
  | O => operand 0
  | S k' =>
      BinaryOperator (expr (2 * k) 0 (4 * k) (4 * k - 2)) Op
        (chainExpr Op k') (operand k)
  end.

(** The selection-tree node of [x0 op ... op x(i+len)] when the selection
    covers exactly the operands [xi] to [x(i+len)]: unselected operands have
    no node. *)
Fixpoint chainSelection (Op : BinaryOperatorKind) (i len : nat) : TreeNode :=
  match len with
  | O =>
      mkTreeNode (DTN_Stmt (chainExpr Op i)) Partial [leaf (operand i) Complete]
  | S len' =>
      mkTreeNode (DTN_Stmt (chainExpr Op (i + len))) Partial
        [chainSelection Op i len'; leaf (operand (i + len)) Complete]
  end.

(** [a + b + c + d] with [b + c] selected: the common ancestor is the node
    of [a + b + c], below the node of the whole chain. *)
Definition abcd : TreeNode :=
  mkTreeNode (DTN_Stmt (chainExpr BO_Add 3)) Partial [chainSelection BO_Add 1 1].

Definition abc_in_abcd : Node := mkNode (chainSelection BO_Add 1 1) [abcd].

(** *** [{ int y = 1; f(y + 1); }] with [y + 1] selected *)

Module Block.
Definition buffer : string := "{ int y = 1; f(y + 1); }".
Definition y : Decl :=
  {| DeclAddr := 100; KindOf := DK_Var; DeclRange := tok 2 10;
     ParentIsLambda := false; InitCapture := false; Init := Some 1 |}.
Definition f : Decl := decl 101 DK_Function NoRange.
Definition one : Stmt := OtherExpr (expr 1 10 10 10) [].
Definition declStmt : Stmt := DeclStmt (stmt 2 2 11) [{| TheDecl := y; DeclStmts := [one] |}].
Definition yRef : Stmt :=
  ImplicitCastExpr (expr 3 15 15 15) (DeclRefExpr (expr 4 15 15 15) y).
Definition lit : Stmt := OtherExpr (expr 5 19 19 19) [].
Definition sum : Stmt := BinaryOperator (expr 6 15 19 17) BO_Add yRef lit.
Definition fRef : Stmt :=
  ImplicitCastExpr (expr 7 13 13 13) (DeclRefExpr (expr 8 13 13 13) f).
Definition call : Stmt := CallExpr (expr 9 13 20 13) fRef [sum].
Definition block : Stmt := CompoundStmt (stmt 10 0 23) [declStmt; call].
Definition func : Decl := decl 102 DK_Function NoRange.

Definition sumNode : TreeNode :=
  mkTreeNode (DTN_Stmt sum) Complete
    [mkTreeNode (DTN_Stmt yRef) Complete [leaf (DeclRefExpr (expr 4 15 15 15) y) Complete];
     leaf lit Complete].
Definition callNode : TreeNode := mkTreeNode (DTN_Stmt call) Partial [sumNode].
Definition blockNode : TreeNode := mkTreeNode (DTN_Stmt block) Partial [callNode].
Definition funcNode : TreeNode := mkTreeNode (DTN_Decl func) Partial [blockNode].

Definition candidate : Node := mkNode sumNode [callNode; blockNode; funcNode].

Definition inputs : Selection :=
  {| SelectionBegin := 15; SelectionEnd := 20;
     getSourceManager := fileSM buffer; getASTContext := cxx17;
     commonAncestor := Some candidate |}.
(** The context [prepare] builds for [y + 1]. *)
Definition target : ExtractionContext :=
  {| Extractable := true; Expr := sum; VarType := Some AutoType;
     ExprNode := candidate; InsertionPoint := Some call;
     SM := fileSM buffer; Ctx := cxx17; ReferencedDecls := [y] |}.
End Block.

(** *** [{ a + b; }] with [a + b] selected *)

Module ExprStatement.
Definition buffer : string := "{ a + b; }".
Definition a : Decl := decl 100 DK_ParmVar NoRange.
Definition b : Decl := decl 101 DK_ParmVar NoRange.
Definition sum : Stmt :=
  BinaryOperator (expr 3 2 6 4) BO_Add
    (DeclRefExpr (expr 1 2 2 2) a) (DeclRefExpr (expr 2 6 6 6) b).
Definition block : Stmt := CompoundStmt (stmt 4 0 9) [sum].

Definition sumNode : TreeNode :=
  mkTreeNode (DTN_Stmt sum) Complete
    [leaf (DeclRefExpr (expr 1 2 2 2) a) Complete;
     leaf (DeclRefExpr (expr 2 6 6 6) b) Complete].
Definition blockNode : TreeNode := mkTreeNode (DTN_Stmt block) Partial [sumNode].

Definition candidate : Node := mkNode sumNode [blockNode].

Definition inputs : Selection :=
  {| SelectionBegin := 2; SelectionEnd := 7;
     getSourceManager := fileSM buffer; getASTContext := cxx17;
     commonAncestor := Some candidate |}.

Definition target : ExtractionContext :=
  {| Extractable := true; Expr := sum; VarType := Some AutoType;
     ExprNode := candidate; InsertionPoint := Some sum;
     SM := fileSM buffer; Ctx := cxx17; ReferencedDecls := [a; b] |}.
End ExprStatement.

(** *** [{ for (int y = 0; y + 1; ) ; }] with [y + 1] selected *)

Module ForLoop.
Definition buffer : string := "{ for (int y = 0; y + 1; ) ; }".
Definition y : Decl :=
  {| DeclAddr := 100; KindOf := DK_Var; DeclRange := tok 7 15;
     ParentIsLambda := false; InitCapture := false; Init := Some 1 |}.
Definition zero : Stmt := OtherExpr (expr 1 15 15 15) [].
Definition declStmt : Stmt :=
  DeclStmt (stmt 2 7 16) [{| TheDecl := y; DeclStmts := [zero] |}].
Definition yRef : Stmt :=
  ImplicitCastExpr (expr 3 18 18 18) (DeclRefExpr (expr 4 18 18 18) y).
Definition lit : Stmt := OtherExpr (expr 5 22 22 22) [].
Definition sum : Stmt := BinaryOperator (expr 6 18 22 20) BO_Add yRef lit.
Definition body : Stmt := OtherStmt (stmt 7 27 27) [].
Definition loop : Stmt := ForStmt (stmt 8 2 27) (Some declStmt) (Some sum) None body.
Definition block : Stmt := CompoundStmt (stmt 9 0 29) [loop].
Definition func : Decl := decl 102 DK_Function NoRange.

Definition sumNode : TreeNode :=
  mkTreeNode (DTN_Stmt sum) Complete [leaf yRef Complete; leaf lit Complete].
Definition loopNode : TreeNode := mkTreeNode (DTN_Stmt loop) Partial [sumNode].
Definition blockNode : TreeNode := mkTreeNode (DTN_Stmt block) Partial [loopNode].
Definition funcNode : TreeNode := mkTreeNode (DTN_Decl func) Partial [blockNode].

Definition candidate : Node := mkNode sumNode [loopNode; blockNode; funcNode].
End ForLoop.

(** *** [{ BLOCK(a + b) }] where the macro [BLOCK(x)] expands to [{ x; }] *)

Module MacroBlock.
Definition a : Decl := decl 100 DK_ParmVar NoRange.
Definition b : Decl := decl 101 DK_ParmVar NoRange.
Definition sum : Stmt :=
  BinaryOperator (expr 3 8 12 10) BO_Add
    (DeclRefExpr (expr 1 8 8 8) a) (DeclRefExpr (expr 2 12 12 12) b).
Definition inner : Stmt :=
  CompoundStmt {| Addr := 4; Range := mkRange (MacroLoc 2) (MacroLoc 13);
                  OpLoc := MacroLoc 2; Ty := None |} [sum].
Definition outer : Stmt := CompoundStmt (stmt 5 0 15) [inner].
Definition func : Decl := decl 102 DK_Function NoRange.

Definition sumNode : TreeNode := leaf sum Complete.
Definition innerNode : TreeNode := mkTreeNode (DTN_Stmt inner) Partial [sumNode].
Definition outerNode : TreeNode := mkTreeNode (DTN_Stmt outer) Partial [innerNode].
Definition funcNode : TreeNode := mkTreeNode (DTN_Decl func) Partial [outerNode].

Definition candidate : Node := mkNode sumNode [innerNode; outerNode; funcNode].
End MacroBlock.

(** *** [{ auto l = [](int x = 1 + 2) {}; }] with [1 + 2] selected *)

Module DefaultArgument.
Definition sum : Stmt :=
  BinaryOperator (expr 3 22 26 24) BO_Add
    (OtherExpr (expr 1 22 22 22) []) (OtherExpr (expr 2 26 26 26) []).
Definition x : Decl :=
  {| DeclAddr := 100; KindOf := DK_ParmVar; DeclRange := tok 14 26;
     ParentIsLambda := false; InitCapture := false; Init := Some 3 |}.
Definition lambda : Stmt :=
  LambdaExpr (expr 4 11 30 11) [] None []
    (Some {| DeclaredReturnType := [];
             parameters := [{| TheDecl := x; DeclStmts := [sum] |}];
             attrs := [] |})
    (CompoundStmt (stmt 5 29 30) []).
Definition l : Decl :=
  {| DeclAddr := 101; KindOf := DK_Var; DeclRange := tok 2 30;
     ParentIsLambda := false; InitCapture := false; Init := Some 4 |}.
Definition declStmt : Stmt :=
  DeclStmt (stmt 6 2 31) [{| TheDecl := l; DeclStmts := [lambda] |}].
Definition block : Stmt := CompoundStmt (stmt 7 0 33) [declStmt].

Definition sumNode : TreeNode := leaf sum Complete.
Definition parmNode : TreeNode := mkTreeNode (DTN_Decl x) Partial [sumNode].
Definition lambdaNode : TreeNode := mkTreeNode (DTN_Stmt lambda) Partial [parmNode].
Definition varNode : TreeNode := mkTreeNode (DTN_Decl l) Partial [lambdaNode].
Definition declNode : TreeNode := mkTreeNode (DTN_Stmt declStmt) Partial [varNode].
Definition blockNode : TreeNode := mkTreeNode (DTN_Stmt block) Partial [declNode].

Definition candidate : Node :=
  mkNode sumNode [parmNode; lambdaNode; varNode; declNode; blockNode].
End DefaultArgument.

(** *** [{ while (c) a + b; }] with [a + b] selected *)

Module WhileBody.
Definition a : Decl := decl 100 DK_ParmVar NoRange.
Definition b : Decl := decl 101 DK_ParmVar NoRange.
Definition c : Decl := decl 102 DK_ParmVar NoRange.
Definition cond : Stmt := DeclRefExpr (expr 1 9 9 9) c.
Definition sum : Stmt :=
  BinaryOperator (expr 4 12 16 14) BO_Add
    (DeclRefExpr (expr 2 12 12 12) a) (DeclRefExpr (expr 3 16 16 16) b).
Definition loop : Stmt := WhileStmt (stmt 5 2 16) cond sum.
Definition block : Stmt := CompoundStmt (stmt 6 0 19) [loop].

Definition sumNode : TreeNode :=
  mkTreeNode (DTN_Stmt sum) Complete
    [leaf (DeclRefExpr (expr 2 12 12 12) a) Complete;
     leaf (DeclRefExpr (expr 3 16 16 16) b) Complete].
Definition loopNode : TreeNode := mkTreeNode (DTN_Stmt loop) Partial [sumNode].
Definition blockNode : TreeNode := mkTreeNode (DTN_Stmt block) Partial [loopNode].

Definition candidate : Node := mkNode sumNode [loopNode; blockNode].
End WhileBody.

(** *** A selection tree that consists of the expression [a + b] alone *)

Module RootExpr.
Definition candidate : Node := mkNode WhileBody.sumNode [].
Definition inputs : Selection :=
  {| SelectionBegin := 12; SelectionEnd := 17;
     getSourceManager := fileSM "a + b"; getASTContext := cxx17;
     commonAncestor := Some candidate |}.
End RootExpr.

(** *** [f()] where [f] is a variable that holds a closure

    The callee of the call is a reference to the call operator of the
    closure type of [f]; the expression contains no closure literal. *)

Module ClosureCall.
Definition f : Decl :=
  {| DeclAddr := 100; KindOf := DK_Var; DeclRange := tok 2 20;
     ParentIsLambda := false; InitCapture := false; Init := Some 50 |}.
Definition callOperator : Decl :=
  {| DeclAddr := 101; KindOf := DK_CXXMethod; DeclRange := tok 11 20;
     ParentIsLambda := true; InitCapture := false; Init := None |}.
Definition calleeRef : Stmt := DeclRefExpr (expr 1 24 25 24) callOperator.
Definition fRef : Stmt := DeclRefExpr (expr 3 23 23 23) f.
Definition call : Stmt :=
  CXXOperatorCallExpr (expr 4 23 25 24) false BO_Comma
    (ImplicitCastExpr (expr 2 24 25 24) calleeRef) [fRef].
End ClosureCall.

(** *** [[x]{ return x + g; }()]: a closure that is invoked where it is
    written, with the capture [x] and the global [g] in its body *)

Module ImmediateCall.
Definition x : Decl := decl 100 DK_Var (tok 2 10).
Definition g : Decl := decl 101 DK_Var NoRange.
Definition callOperator : Decl :=
  {| DeclAddr := 102; KindOf := DK_CXXMethod; DeclRange := tok 13 31;
     ParentIsLambda := true; InitCapture := false; Init := None |}.
Definition body : Stmt :=
  CompoundStmt (stmt 1 16 31)
    [ReturnStmt (stmt 2 18 29)
       (Some (BinaryOperator (expr 5 25 29 27) BO_Add
                (DeclRefExpr (expr 3 25 25 25) x)
                (DeclRefExpr (expr 4 29 29 29) g)))].
Definition lambda : Stmt :=
  LambdaExpr (expr 6 13 31 13)
    [({| IsInitCapture := false;
         CapturedVar := {| TheDecl := x; DeclStmts := [] |} |},
      Some (DeclRefExpr (expr 7 14 14 14) x))]
    None []
    (Some {| DeclaredReturnType := []; parameters := []; attrs := [] |})
    body.
Definition calleeRef : Stmt := DeclRefExpr (expr 8 32 33 32) callOperator.
Definition call : Stmt :=
  CXXOperatorCallExpr (expr 10 13 33 32) false BO_Comma
    (ImplicitCastExpr (expr 9 32 33 32) calleeRef) [lambda].
End ImmediateCall.

(** *** [{ int y = 1; f(y + 1); }] with the name [f] selected *)

Module CalleeName.
Definition nameNode : TreeNode :=
  leaf (DeclRefExpr (expr 8 13 13 13) Block.f) Complete.
Definition castNode : TreeNode :=
  mkTreeNode (DTN_Stmt Block.fRef) Complete [nameNode].
Definition callNode : TreeNode :=
  mkTreeNode (DTN_Stmt Block.call) Partial [castNode].
Definition blockNode : TreeNode :=
  mkTreeNode (DTN_Stmt Block.block) Partial [callNode].
Definition funcNode : TreeNode :=
  mkTreeNode (DTN_Decl Block.func) Partial [blockNode].

Definition selected : Node :=
  mkNode nameNode [castNode; callNode; blockNode; funcNode].
Definition call : Node := mkNode callNode [blockNode; funcNode].
End CalleeName.

(** *** [{ switch (c) { case 1: f(a + b); } }] with [a + b] selected *)

Module SwitchBody.
Definition a : Decl := decl 100 DK_ParmVar NoRange.
Definition b : Decl := decl 101 DK_ParmVar NoRange.
Definition c : Decl := decl 102 DK_ParmVar NoRange.
Definition f : Decl := decl 103 DK_Function NoRange.
Definition sum : Stmt :=
  BinaryOperator (expr 3 25 29 27) BO_Add
    (DeclRefExpr (expr 1 25 25 25) a) (DeclRefExpr (expr 2 29 29 29) b).
Definition call : Stmt :=
  CallExpr (expr 5 23 30 23) (DeclRefExpr (expr 4 23 23 23) f) [sum].
Definition caseStmt : Stmt :=
  SwitchCase (stmt 7 15 30) SC_Case [OtherExpr (expr 6 20 20 20) []; call].
Definition inner : Stmt := CompoundStmt (stmt 8 13 33) [caseStmt].
Definition switchStmt : Stmt :=
  OtherStmt (stmt 10 2 33) [DeclRefExpr (expr 9 10 10 10) c; inner].
Definition outer : Stmt := CompoundStmt (stmt 11 0 35) [switchStmt].

Definition sumNode : TreeNode := leaf sum Complete.
Definition callNode : TreeNode := mkTreeNode (DTN_Stmt call) Partial [sumNode].
Definition caseNode : TreeNode := mkTreeNode (DTN_Stmt caseStmt) Partial [callNode].
Definition innerNode : TreeNode := mkTreeNode (DTN_Stmt inner) Partial [caseNode].
Definition switchNode : TreeNode :=
  mkTreeNode (DTN_Stmt switchStmt) Partial [innerNode].
Definition outerNode : TreeNode := mkTreeNode (DTN_Stmt outer) Partial [switchNode].

Definition candidate : Node :=
  mkNode sumNode [callNode; caseNode; innerNode; switchNode; outerNode].
End SwitchBody.

(** *** [{ x = a + b + c; }] with [b + c] selected *)

Module AssignChain.
Definition x : Decl := decl 100 DK_ParmVar NoRange.
Definition a : Decl := decl 101 DK_ParmVar NoRange.
Definition b : Decl := decl 102 DK_ParmVar NoRange.
Definition c : Decl := decl 103 DK_ParmVar NoRange.
Definition bRef : Stmt := DeclRefExpr (expr 3 10 10 10) b.
Definition cRef : Stmt := DeclRefExpr (expr 5 14 14 14) c.
Definition ab : Stmt :=
  BinaryOperator (expr 4 6 10 8) BO_Add (DeclRefExpr (expr 2 6 6 6) a) bRef.
Definition abc : Stmt := BinaryOperator (expr 6 6 14 12) BO_Add ab cRef.
Definition assign : Stmt :=
  BinaryOperator (expr 7 2 14 4) BO_Assign (DeclRefExpr (expr 1 2 2 2) x) abc.
Definition block : Stmt := CompoundStmt (stmt 8 0 17) [assign].

Definition abNode : TreeNode :=
  mkTreeNode (DTN_Stmt ab) Partial [leaf bRef Complete].
Definition abcNode : TreeNode :=
  mkTreeNode (DTN_Stmt abc) Partial [abNode; leaf cRef Complete].
Definition assignNode : TreeNode := mkTreeNode (DTN_Stmt assign) Partial [abcNode].
Definition blockNode : TreeNode := mkTreeNode (DTN_Stmt block) Partial [assignNode].

Definition candidate : Node := mkNode abcNode [assignNode; blockNode].
Definition parent : Node := mkNode assignNode [blockNode].
End AssignChain.

(** *** [{ a * b + c; }] with [b + c] selected *)

Module MixedChain.
Definition a : Decl := decl 100 DK_ParmVar NoRange.
Definition b : Decl := decl 101 DK_ParmVar NoRange.
Definition c : Decl := decl 102 DK_ParmVar NoRange.
Definition bRef : Stmt := DeclRefExpr (expr 2 6 6 6) b.
Definition cRef : Stmt := DeclRefExpr (expr 4 10 10 10) c.
Definition product : Stmt :=
  BinaryOperator (expr 3 2 6 4) BO_Mul (DeclRefExpr (expr 1 2 2 2) a) bRef.
Definition sum : Stmt := BinaryOperator (expr 5 2 10 8) BO_Add product cRef.
Definition block : Stmt := CompoundStmt (stmt 6 0 13) [sum].

Definition productNode : TreeNode :=
  mkTreeNode (DTN_Stmt product) Partial [leaf bRef Complete].
Definition sumNode : TreeNode :=
  mkTreeNode (DTN_Stmt sum) Partial [productNode; leaf cRef Complete].
Definition blockNode : TreeNode := mkTreeNode (DTN_Stmt block) Partial [sumNode].

Definition candidate : Node := mkNode sumNode [blockNode].
Definition left : Node := mkNode productNode [sumNode; blockNode].
Definition right : Node := mkNode (leaf cRef Complete) [sumNode; blockNode].
End MixedChain.

(** *** [{ a - b; }] with [a - b] selected *)

Module Subtraction.
Definition buffer : string := "{ a - b; }".
Definition a : Decl := decl 100 DK_ParmVar NoRange.
Definition b : Decl := decl 101 DK_ParmVar NoRange.
Definition difference : Stmt :=
  BinaryOperator (expr 3 2 6 4) BO_Sub
    (DeclRefExpr (expr 1 2 2 2) a) (DeclRefExpr (expr 2 6 6 6) b).
Definition block : Stmt := CompoundStmt (stmt 4 0 9) [difference].

Definition differenceNode : TreeNode :=
  mkTreeNode (DTN_Stmt difference) Complete
    [leaf (DeclRefExpr (expr 1 2 2 2) a) Complete;
     leaf (DeclRefExpr (expr 2 6 6 6) b) Complete].
Definition blockNode : TreeNode :=
  mkTreeNode (DTN_Stmt block) Partial [differenceNode].

Definition candidate : Node := mkNode differenceNode [blockNode].

Definition target : ExtractionContext :=
  {| Extractable := true; Expr := difference; VarType := Some AutoType;
     ExprNode := candidate; InsertionPoint := Some difference;
     SM := fileSM buffer; Ctx := cxx17; ReferencedDecls := [a; b] |}.
End Subtraction.

(** *** Pass manager options: statistics and module-scope printing asked
    for, on a context with multi-threading *)

Module ModuleScope.
Definition options : PassManagerCL.PassManagerOptions :=
  {| PassManagerCL.reproducerFile := EmptyString;
     PassManagerCL.reproducerFileOccurrences := 0;
     PassManagerCL.localReproducer := false;
     PassManagerCL.printBefore :=
       {| PassManagerCL.hasAnyOccurrences := false;
          PassManagerCL.contains := fun _ => false |};
     PassManagerCL.printAfter :=
       {| PassManagerCL.hasAnyOccurrences := true;
          PassManagerCL.contains := Nat.eqb 7 |};
     PassManagerCL.printBeforeAll := false;
     PassManagerCL.printAfterAll := false;
     PassManagerCL.printAfterChange := false;
     PassManagerCL.printAfterFailure := true;
     PassManagerCL.printModuleScope := true;
     PassManagerCL.printTreeDir := EmptyString;
     PassManagerCL.passStatistics := true;
     PassManagerCL.passStatisticsDisplayMode := PassManagerCL.DisplayList |}.

Definition threaded : PassManagerCL.PassManager :=
  {| PassManagerCL.isMultithreadingEnabled := true;
     PassManagerCL.diagnostics := [];
     PassManagerCL.calls := [] |}.

Definition sequential : PassManagerCL.PassManager :=
  {| PassManagerCL.isMultithreadingEnabled := false;
     PassManagerCL.diagnostics := [];
     PassManagerCL.calls := [] |}.
End ModuleScope.

End Fixture.

(** * Properties *)

Unset Implicit Arguments.

(** ** Locations and pointers *)

Lemma Loc_eqb_eq (A B : SourceLocation) : Loc.eqb A B = true <-> A = B.
Proof.
  destruct A as [|a|a], B as [|b|b]; simpl; try rewrite Nat.eqb_eq;
    split; intro H; try discriminate H; try reflexivity;
    try (injection H as ->; reflexivity); subst; reflexivity.
Qed.

Lemma range_eqb_eq (A B : SourceRange) : range_eqb A B = true <-> A = B.
Proof.
  destruct A as [a1 a2], B as [b1 b2]; unfold range_eqb; simpl.
  rewrite andb_true_iff, !Loc_eqb_eq.
  split; [intros [-> ->]; reflexivity | intro H; injection H; auto].
Qed.

Lemma BinaryOperatorKind_eqb_eq (A B : BinaryOperatorKind) :
  BinaryOperatorKind_eqb A B = true <-> A = B.
Proof. destruct A, B; simpl; split; intro H; congruence. Qed.

Lemma BinaryOperatorKind_eqb_refl (A : BinaryOperatorKind) :
  BinaryOperatorKind_eqb A A = true.
Proof. apply BinaryOperatorKind_eqb_eq; reflexivity. Qed.


Lemma get_Expr_Stmt (N : DynTypedNode) (E : Stmt) :
  get_Expr N = Some E -> get_Stmt N = Some E /\ isa_Expr E = true.
Proof.
  destruct N as [St| |]; simpl; try discriminate.
  destruct (isa_Expr St) eqn:HE; try discriminate.
  intro H; injection H as <-; auto.
Qed.

Lemma isNull_stripOuterNullability (T : QualType) :
  isNull (stripOuterNullability T) = isNull T.
Proof. destruct T as [[ | |[n|] M| ]|]; reflexivity. Qed.

(** ** Extraction context *)

(** C1.  A candidate built from a selection node that holds an expression is
    extractable exactly when an insertion point was found and the inferred
    variable type is not null; the insertion point is the one the resolver
    computes for the collected references, and the variable type is null
    exactly when the inferred type is. *)
Theorem extractable_iff_insertion_point_and_type :
  forall (N : Node) (SM : SourceManager) (Ctx : ASTContext) (E : Stmt),
    get_Expr (ASTNode N) = Some E ->
    exists EC,
      newExtractionContext N SM Ctx = Some EC /\
      InsertionPoint EC = computeInsertionPoint SM (computeReferencedDecls E) N /\
      isNull (VarType EC) = isNull (computeVariableType E Ctx) /\
      (isExtractable EC = true <->
       InsertionPoint EC <> None /\ isNull (VarType EC) = false).
Proof.
  intros N SM0 Ctx0 E HE. unfold newExtractionContext. rewrite HE.
  eexists; split; [reflexivity|]. unfold isExtractable; simpl.
  split; [reflexivity|].
  destruct (computeVariableType E Ctx0) as [T|] eqn:HT; simpl.
  - assert (HN : isNull (stripOuterNullability (Some T)) = false)
      by (rewrite isNull_stripOuterNullability; reflexivity).
    split; [exact HN|].
    destruct (computeInsertionPoint SM0 (computeReferencedDecls E) N); simpl.
    + split; [intros _; split; [discriminate | exact HN] | reflexivity].
    + split; [discriminate | intros [H _]; contradiction H; reflexivity].
  - split; [reflexivity|].
    split; [discriminate | intros [_ H]; discriminate H].
Qed.

Lemma extractable_iff_insertion_point_and_type_witness :
  exists EC,
    newExtractionContext Fixture.Block.candidate
      (Fixture.fileSM Fixture.Block.buffer) Fixture.cxx17 = Some EC /\
    InsertionPoint EC =
      computeInsertionPoint (Fixture.fileSM Fixture.Block.buffer)
        (computeReferencedDecls Fixture.Block.sum) Fixture.Block.candidate /\
    isNull (VarType EC) = isNull (computeVariableType Fixture.Block.sum Fixture.cxx17) /\
    (isExtractable EC = true <->
     InsertionPoint EC <> None /\ isNull (VarType EC) = false).
Proof.
  apply (extractable_iff_insertion_point_and_type
           Fixture.Block.candidate (Fixture.fileSM Fixture.Block.buffer)
           Fixture.cxx17 Fixture.Block.sum).
  reflexivity.
Defined.

(** ** Insertion point *)

Lemma exprIsValidOutside_false (SM : SourceManager) (Decls : list Decl)
    (Scope : Stmt) (D : Decl) :
  In D Decls -> declInside SM D Scope = true ->
  exprIsValidOutside SM Decls Scope = false.
Proof.
  intros HIn HD. unfold exprIsValidOutside.
  apply negb_false_iff, existsb_exists. exists D; split; [exact HIn | exact HD].
Qed.



(** One turn of the loop, and the turns up to the first block. *)
Lemma insertionPointFrom_step (SM : SourceManager) (Decls : list Decl)
    (Cur P : TreeNode) (Above : list TreeNode) :
  insertionPointFrom SM Decls Cur (P :: Above) =
  if mayPass SM Decls (mkNode Cur (P :: Above))
  then if isBlockNode P then get_Stmt (nodeAST Cur)
       else insertionPointFrom SM Decls P Above
  else None.
Proof.
  simpl. unfold mayPass, isBlockNode, isBlock, ASTNode. cbn [This].
  destruct (CanExtractOutside (mkNode Cur (P :: Above))); simpl; [|reflexivity].
  destruct (get_Stmt (nodeAST Cur)) as [St|]; simpl.
  - destruct (exprIsValidOutside SM Decls St); simpl; [|reflexivity].
    destruct (get_Stmt (nodeAST P)) as [CurParent|]; [|reflexivity].
    destruct (isa_CompoundStmt CurParent); [|reflexivity].
    destruct (isMacroID (getBeginLoc CurParent)); reflexivity.
  - destruct (get_Stmt (nodeAST P)) as [CurParent|]; [|reflexivity].
    destruct (isa_CompoundStmt CurParent); [|reflexivity].
    destruct (isMacroID (getBeginLoc CurParent)); reflexivity.
Qed.

Lemma insertionPointFrom_iff (SM : SourceManager) (Decls : list Decl) (IP : Stmt) :
  forall (Anc : list TreeNode) (Cur : TreeNode),
    insertionPointFrom SM Decls Cur Anc = Some IP <->
    exists Pre A B Above,
      Cur :: Anc = Pre ++ A :: B :: Above /\
      Forall (fun T => isBlockNode T = false) (tl (Pre ++ [A])) /\
      isBlockNode B = true /\
      Forall (fun N => mayPass SM Decls N = true)
        (firstn (S (List.length Pre)) (ancestorsOrSelfFrom Cur Anc)) /\
      get_Stmt (nodeAST A) = Some IP.
Proof.
  induction Anc as [|P Above IH]; intro Cur.
  - simpl. split; [discriminate|].
    intros (Pre & A & B & Above & Hp & _). exfalso.
    destruct Pre as [|x [|y Pre]]; discriminate Hp.
  - rewrite insertionPointFrom_step. split.
    + destruct (mayPass SM Decls (mkNode Cur (P :: Above))) eqn:HM; [|discriminate].
      destruct (isBlockNode P) eqn:HB.
      * intro H. exists [], Cur, P, Above. simpl.
        repeat split; auto.
      * intro H. apply IH in H.
        destruct H as (Pre & A & B & Above' & Hp & Hnb & HBb & HF & HS).
        exists (Cur :: Pre), A, B, Above'. simpl.
        split; [rewrite Hp; reflexivity|].
        split.
        { destruct Pre as [|q Pre']; simpl in Hp |- *.
          - injection Hp as <- _. constructor; [exact HB | constructor].
          - injection Hp as <- _. constructor; [exact HB | exact Hnb]. }
        split; [exact HBb|]. split; [|exact HS].
        constructor; [exact HM | exact HF].
    + intros (Pre & A & B & Above' & Hp & Hnb & HBb & HF & HS).
      destruct Pre as [|c Pre].
      * simpl in Hp. injection Hp as <- <- <-. simpl in HF.
        inversion HF as [|? ? HM _]; subst. rewrite HM, HBb. exact HS.
      * simpl in Hp. injection Hp as <- Hp. simpl in HF.
        inversion HF as [|? ? HM HF']; subst. rewrite HM.
        assert (HB : isBlockNode P = false).
        { simpl in Hnb. destruct Pre as [|q Pre']; simpl in Hp, Hnb;
            injection Hp as -> _; inversion Hnb; assumption. }
        rewrite HB. apply IH. exists Pre, A, B, Above'.
        split; [exact Hp|]. split.
        { simpl in Hnb. destruct Pre as [|q Pre']; simpl in *; [constructor|].
          inversion Hnb; assumption. }
        split; [exact HBb|]. split; [|exact HS].
        exact HF'.
Qed.


Lemma newExtractionContext_no_insertion_point (X : Node) (SM : SourceManager)
    (Ctx : ASTContext) (E : Stmt) :
  get_Expr (ASTNode X) = Some E ->
  computeInsertionPoint SM (computeReferencedDecls E) X = None ->
  exists EC,
    newExtractionContext X SM Ctx = Some EC /\
    InsertionPoint EC = None /\ isExtractable EC = false.
Proof.
  intros HE HIP. unfold newExtractionContext. rewrite HE, HIP.
  eexists; split; [reflexivity|]. unfold isExtractable; simpl.
  split; [reflexivity|]. destruct (isNull (computeVariableType E Ctx)); reflexivity.
Qed.




(** C7.  An insertion point that the resolver returns is the statement of a
    node on the path from the candidate to the root whose parent node is a
    compound statement that does not start inside a macro expansion.  Where
    the parent is a compound statement that starts inside a macro expansion
    the loop does not return the current statement: it goes on from the
    parent. *)
Theorem insertion_point_parent_is_block :
  forall (SM : SourceManager) (Decls : list Decl),
    (forall (X : Node) (IP : Stmt),
        computeInsertionPoint SM Decls X = Some IP ->
        exists Pre A B Above BS,
          This X :: Up X = Pre ++ A :: B :: Above /\
          get_Stmt (nodeAST A) = Some IP /\
          get_Stmt (nodeAST B) = Some BS /\
          isa_CompoundStmt BS = true /\
          isMacroID (getBeginLoc BS) = false) /\
    (forall (Cur P : TreeNode) (Above : list TreeNode) (BS : Stmt),
        get_Stmt (nodeAST P) = Some BS ->
        isa_CompoundStmt BS = true ->
        isMacroID (getBeginLoc BS) = true ->
        (insertionPointFrom SM Decls Cur (P :: Above) = None \/
         insertionPointFrom SM Decls Cur (P :: Above) =
           insertionPointFrom SM Decls P Above) /\
        (CanExtractOutside (mkNode Cur (P :: Above)) = true ->
         (forall St, get_Stmt (nodeAST Cur) = Some St ->
                     exprIsValidOutside SM Decls St = true) ->
         insertionPointFrom SM Decls Cur (P :: Above) =
           insertionPointFrom SM Decls P Above)).
Proof.
  intros SM0 Decls. split.
  - intros [Cur Anc] IP. unfold computeInsertionPoint; simpl.
    revert Cur. induction Anc as [|P Above IH]; intros Cur H; simpl in H.
    + discriminate H.
    + destruct (CanExtractOutside (mkNode Cur (P :: Above))); simpl in H;
        [|discriminate H].
      destruct (match get_Stmt (nodeAST Cur) with
                | Some St => negb (exprIsValidOutside SM0 Decls St)
                | None => false
                end); [discriminate H|].
      assert (Hup : insertionPointFrom SM0 Decls P Above = Some IP ->
                    exists Pre A B Above' BS,
                      Cur :: P :: Above = Pre ++ A :: B :: Above' /\
                      get_Stmt (nodeAST A) = Some IP /\
                      get_Stmt (nodeAST B) = Some BS /\
                      isa_CompoundStmt BS = true /\
                      isMacroID (getBeginLoc BS) = false).
      { intro H'. destruct (IH P H') as (Pre & A & B & Above' & BS & Hp & R).
        exists (Cur :: Pre), A, B, Above', BS. split; [|exact R].
        simpl. rewrite Hp. reflexivity. }
      destruct (get_Stmt (nodeAST P)) as [CurParent|] eqn:HP; [|auto].
      destruct (isa_CompoundStmt CurParent) eqn:HC; [|auto].
      destruct (isMacroID (getBeginLoc CurParent)) eqn:HM; [auto|].
      exists [], Cur, P, Above, CurParent. simpl. auto.
  - intros Cur P Above BS HP HC HM. simpl. rewrite HP, HC, HM. split.
    + destruct (CanExtractOutside (mkNode Cur (P :: Above))); simpl; auto.
      destruct (match get_Stmt (nodeAST Cur) with
                | Some St => negb (exprIsValidOutside SM0 Decls St)
                | None => false
                end); auto.
    + intros HCan HValid. rewrite HCan; simpl.
      destruct (get_Stmt (nodeAST Cur)) as [St|]; [|reflexivity].
      rewrite (HValid St eq_refl). reflexivity.
Qed.

Lemma insertion_point_parent_is_block_witness :
  exists Pre A B Above BS,
    This Fixture.MacroBlock.candidate :: Up Fixture.MacroBlock.candidate =
      Pre ++ A :: B :: Above /\
    get_Stmt (nodeAST A) = Some Fixture.MacroBlock.inner /\
    get_Stmt (nodeAST B) = Some BS /\
    isa_CompoundStmt BS = true /\
    isMacroID (getBeginLoc BS) = false.
Proof.
  apply (proj1 (insertion_point_parent_is_block (Fixture.fileSM EmptyString)
                  (computeReferencedDecls Fixture.MacroBlock.sum))
           Fixture.MacroBlock.candidate Fixture.MacroBlock.inner).
  reflexivity.
Defined.

(** C9.  When the parent node of the candidate expression is a parameter
    declaration, the search stops at the candidate: whatever the candidate
    references there is no insertion point, and the candidate is not
    extractable. *)
Theorem default_argument_not_extractable :
  forall (SM : SourceManager) (Ctx : ASTContext) (X P : Node) (E : Stmt)
         (D : Decl),
    get_Expr (ASTNode X) = Some E ->
    Parent X = Some P ->
    get_ParmVarDecl (ASTNode P) = Some D ->
    (forall Decls, computeInsertionPoint SM Decls X = None) /\
    exists EC,
      newExtractionContext X SM Ctx = Some EC /\
      InsertionPoint EC = None /\ isExtractable EC = false.
Proof.
  intros SM0 Ctx0 [Cur Anc] P E D HE HP HD.
  assert (HIP : forall Decls, computeInsertionPoint SM0 Decls (mkNode Cur Anc) = None).
  { intro Decls. unfold computeInsertionPoint; simpl.
    destruct Anc as [|P' Above]; [reflexivity|]. simpl.
    assert (HCan : CanExtractOutside (mkNode Cur (P' :: Above)) = false).
    { unfold CanExtractOutside. destruct (get_Expr_Stmt _ _ HE) as [HS HEx].
      rewrite HS, HEx, HP, HD. reflexivity. }
    rewrite HCan. reflexivity. }
  split; [exact HIP|].
  apply newExtractionContext_no_insertion_point with (E := E);
    [exact HE | apply HIP].
Qed.

Lemma default_argument_not_extractable_witness :
  (forall Decls,
      computeInsertionPoint (Fixture.fileSM EmptyString) Decls
        Fixture.DefaultArgument.candidate = None) /\
  exists EC,
    newExtractionContext Fixture.DefaultArgument.candidate (Fixture.fileSM EmptyString)
      Fixture.cxx17 = Some EC /\
    InsertionPoint EC = None /\ isExtractable EC = false.
Proof.
  apply (default_argument_not_extractable (Fixture.fileSM EmptyString) Fixture.cxx17
           Fixture.DefaultArgument.candidate
           (mkNode Fixture.DefaultArgument.parmNode
              (tl (Up Fixture.DefaultArgument.candidate)))
           Fixture.DefaultArgument.sum Fixture.DefaultArgument.x);
    reflexivity.
Defined.

(** ** Eligibility *)

Ltac skip_checks :=
  repeat match goal with
         | |- (if ?c then false else _) = false => destruct c; [reflexivity|]
         end.

Lemma eligibleForExtraction_needs_parent (N : Node) :
  Parent (outerImplicit N) = None -> eligibleForExtraction N = false.
Proof.
  intro HP. unfold eligibleForExtraction.
  destruct (get_Expr (ASTNode N)) as [E|]; [|reflexivity].
  skip_checks. rewrite HP. reflexivity.
Qed.





Lemma computeExtractedExpr_chosen (N : Node) :
  eligibleForExtraction (chosenCandidate N) = false ->
  computeExtractedExpr (Some N) = None.
Proof.
  unfold computeExtractedExpr, chosenCandidate.
  destruct (get_Expr (ASTNode N)) as [SelectedExpr|]; [|reflexivity].
  intro H. rewrite H. simpl.
  destruct SelectedExpr; try reflexivity.
  destruct Opcode; reflexivity.
Qed.

(** C10.  A node whose wrapping in implicit parents has no parent is not
    eligible; when this is so for the candidate that [computeExtractedExpr]
    settles on, a fresh tweak answers [prepare] with [false] and keeps no
    target. *)
Theorem root_candidate_not_applicable :
  (forall N : Node,
      Parent (outerImplicit N) = None -> eligibleForExtraction N = false) /\
  (forall (Inputs : Selection) (N : Node),
      commonAncestor Inputs = Some N ->
      Parent (outerImplicit (chosenCandidate N)) = None ->
      computeExtractedExpr (commonAncestor Inputs) = None /\
      prepare Inputs None = Some (false, None)).
Proof.
  split; [exact eligibleForExtraction_needs_parent|].
  intros Inputs N HN HP.
  assert (HC : computeExtractedExpr (commonAncestor Inputs) = None).
  { rewrite HN. apply computeExtractedExpr_chosen.
    apply eligibleForExtraction_needs_parent, HP. }
  split; [exact HC|].
  unfold prepare. rewrite HC.
  destruct (Nat.eqb (SelectionBegin Inputs) (SelectionEnd Inputs)); reflexivity.
Qed.

Lemma root_candidate_not_applicable_witness :
  computeExtractedExpr (commonAncestor Fixture.RootExpr.inputs) = None /\
  prepare Fixture.RootExpr.inputs None = Some (false, None).
Proof.
  apply (proj2 root_candidate_not_applicable Fixture.RootExpr.inputs
           Fixture.RootExpr.candidate); reflexivity.
Defined.

(** ** Binary subexpressions *)

(** The loop of [getBinaryOperatorRange] descends one level of the selection
    tree in every turn, so the height of the tree bounds its turns. *)

Lemma height_pos (T : TreeNode) : 1 <= height T.
Proof. destruct T; simpl; lia. Qed.

Lemma height_child (C : TreeNode) (L : list TreeNode) :
  In C L -> height C <= fold_right (fun C M => Nat.max (height C) M) 0 L.
Proof.
  induction L as [|x L IH]; simpl; [contradiction|].
  intros [->|H]; [lia|]. specialize (IH H). lia.
Qed.

Lemma height_Children (N C : Node) :
  In C (Children N) -> height (This C) < height (This N).
Proof.
  unfold Children. intro H. apply in_map_iff in H.
  destruct H as (c & <- & Hc). simpl.
  destruct (This N) as [a s ch]; simpl in *.
  apply height_child in Hc. lia.
Qed.

Lemma height_ignoreImplicit_from (n : nat) :
  forall (T : TreeNode) (Up : list TreeNode),
    height T <= n -> height (This (ignoreImplicit_from T Up)) <= height T.
Proof.
  induction n as [|n IH]; intros T Up Hn.
  - pose proof (height_pos T); lia.
  - destruct T as [a s ch]. simpl.
    destruct ch as [|C [|C' ch']]; simpl; try lia.
    destruct (range_eqb (nodeSourceRange (nodeAST C)) (nodeSourceRange a));
      simpl; [|lia].
    simpl in Hn. specialize (IH C (mkTreeNode a s [C] :: Up)).
    lia.
Qed.

Lemma height_ignoreImplicit (N : Node) :
  height (This (ignoreImplicit N)) <= height (This N).
Proof. apply (height_ignoreImplicit_from (height (This N))). lia. Qed.

Lemma parse_SelectedOperands (N : Node) (Op : t) :
  parse N = Some Op -> incl (SelectedOperands Op) (Children N).
Proof.
  unfold parse. destruct (get_Expr (ASTNode N)) as [E|]; [|discriminate].
  destruct E; try discriminate.
  - intro H; injection H as <-. simpl. apply incl_refl.
  - destruct (negb InfixBinaryOp); [discriminate|].
    intro H; injection H as <-. simpl. apply incl_filter.
Qed.

Lemma pushDownStart_enough (SM : SourceManager) (OuterOp : BinaryOperatorKind) :
  forall (Steps : nat) (Start : Node),
    height (This Start) <= Steps ->
    pushDownStart Steps SM OuterOp Start <> MoreSteps.
Proof.
  induction Steps as [|Steps IH]; intros Start HS.
  - pose proof (height_pos (This Start)); lia.
  - simpl. destruct (parse (ignoreImplicit Start)) as [Op|] eqn:HP; [|discriminate].
    destruct (negb (BinaryOperatorKind_eqb (Kind Op) OuterOp)); [discriminate|].
    destruct (crossesMacroBoundary SM Op) as [[|]|]; try discriminate.
    destruct (SelectedOperands Op) as [|OpLHS [|OpRHS Rest]] eqn:HO;
      try discriminate.
    apply IH.
    assert (HIn : In OpLHS (Children (ignoreImplicit Start))).
    { apply (parse_SelectedOperands _ _ HP). rewrite HO. left. reflexivity. }
    apply height_Children in HIn.
    pose proof (height_ignoreImplicit Start). lia.
Qed.

Lemma pushDownStart_more (SM : SourceManager) (OuterOp : BinaryOperatorKind) :
  forall (Steps : nat) (Start : Node) (Extra : nat),
    pushDownStart Steps SM OuterOp Start <> MoreSteps ->
    pushDownStart (Steps + Extra) SM OuterOp Start =
    pushDownStart Steps SM OuterOp Start.
Proof.
  induction Steps as [|Steps IH]; intros Start Extra H.
  - contradiction H; reflexivity.
  - simpl in *. destruct (parse (ignoreImplicit Start)) as [Op|]; [|reflexivity].
    destruct (negb (BinaryOperatorKind_eqb (Kind Op) OuterOp)); [reflexivity|].
    destruct (crossesMacroBoundary SM Op) as [[|]|]; try reflexivity.
    destruct (SelectedOperands Op) as [|OpLHS [|OpRHS Rest]]; try reflexivity.
    apply IH, H.
Qed.

Lemma getBinaryOperatorRange_steps (N : Node) (SM : SourceManager) (Op : t)
    (Start End : Node) :
  parse (ignoreImplicit N) = Some Op ->
  SelectedOperands Op = [Start; End] ->
  pushDownStart (height (This N)) SM (Kind Op) Start <> MoreSteps.
Proof.
  intros HP HO. apply pushDownStart_enough.
  assert (HIn : In Start (Children (ignoreImplicit N))).
  { apply (parse_SelectedOperands _ _ HP). rewrite HO. left. reflexivity. }
  apply height_Children in HIn.
  pose proof (height_ignoreImplicit N). lia.
Qed.

(** The selection tree of an operator chain. *)

Lemma chain_node_expr (Op : BinaryOperatorKind) (i len : nat) :
  nodeAST (Fixture.chainSelection Op i len) = DTN_Stmt (Fixture.chainExpr Op (i + len)).
Proof. destruct len; simpl; [rewrite Nat.add_0_r|]; reflexivity. Qed.

Lemma chain_ignoreImplicit (Op : BinaryOperatorKind) (i len : nat)
    (Up : list TreeNode) :
  1 <= i ->
  ignoreImplicit (mkNode (Fixture.chainSelection Op i len) Up) =
  mkNode (Fixture.chainSelection Op i len) Up.
Proof.
  intro Hi. destruct len; [|reflexivity].
  destruct i as [|i]; [lia|].
  unfold ignoreImplicit. cbn -[Nat.mul]. 
  replace (Nat.eqb (4 * S i) 0) with false; [reflexivity|].
  symmetry. apply Nat.eqb_neq. lia.
Qed.

Lemma chain_parse (Op : BinaryOperatorKind) (i len : nat) (Up : list TreeNode) :
  1 <= i ->
  parse (mkNode (Fixture.chainSelection Op i len) Up) =
  Some {| Kind := Op;
          ExprLoc := FileLoc (4 * (i + len) - 2);
          SelectedOperands := Children (mkNode (Fixture.chainSelection Op i len) Up) |}.
Proof.
  intro Hi. unfold parse, ASTNode. cbn [This].
  rewrite chain_node_expr.
  destruct (i + len) as [|k] eqn:Hk; [lia|]. reflexivity.
Qed.

Lemma chainExpr_is_expr (Op : BinaryOperatorKind) (k : nat) (Buffer : string) :
  get_Expr (DTN_Stmt (Fixture.chainExpr Op k)) = Some (Fixture.chainExpr Op k) /\
  getFileID (Fixture.fileSM Buffer) (getExprLoc (Fixture.chainExpr Op k)) = 1.
Proof. destruct k; split; reflexivity. Qed.

Lemma chain_Children (Op : BinaryOperatorKind) (i len : nat) (Up : list TreeNode) :
  Children (mkNode (Fixture.chainSelection Op i len) Up) =
  match len with
  | O => [mkNode (Fixture.leaf (Fixture.operand i) Complete) (Fixture.chainSelection Op i len :: Up)]
  | S len' =>
      [mkNode (Fixture.chainSelection Op i len') (Fixture.chainSelection Op i len :: Up);
       mkNode (Fixture.leaf (Fixture.operand (i + len)) Complete) (Fixture.chainSelection Op i len :: Up)]
  end.
Proof. destruct len; reflexivity. Qed.

Lemma chain_crosses (Op : BinaryOperatorKind) (i len : nat) (Up : list TreeNode)
    (Buffer : string) (L : nat) :
  crossesMacroBoundary (Fixture.fileSM Buffer)
    {| Kind := Op; ExprLoc := FileLoc L;
       SelectedOperands := Children (mkNode (Fixture.chainSelection Op i len) Up) |} =
  Some false.
Proof.
  unfold crossesMacroBoundary. cbn [ExprLoc SelectedOperands].
  rewrite chain_Children. destruct len as [|len].
  - reflexivity.
  - cbn [crossesFrom]. unfold ASTNode. cbn [This]. rewrite chain_node_expr.
    destruct (chainExpr_is_expr Op (i + len) Buffer) as [-> ->].
    reflexivity.
Qed.

Lemma chain_pushDownStart (Op : BinaryOperatorKind) (i : nat) (Buffer : string) :
  1 <= i ->
  forall (len Steps : nat) (Up : list TreeNode),
    len < Steps ->
    exists Up',
      pushDownStart Steps (Fixture.fileSM Buffer) Op (mkNode (Fixture.chainSelection Op i len) Up) =
      Stopped (mkNode (Fixture.leaf (Fixture.operand i) Complete) Up').
Proof.
  intros Hi len. induction len as [|len IH]; intros Steps Up HS;
    (destruct Steps as [|Steps]; [lia|]);
    cbn [pushDownStart];
    rewrite (chain_ignoreImplicit Op i _ Up Hi), (chain_parse Op i _ Up Hi);
    cbn [Kind]; rewrite BinaryOperatorKind_eqb_refl; cbn [negb];
    rewrite chain_crosses; cbn [SelectedOperands]; rewrite chain_Children.
  - eexists; reflexivity.
  - apply IH. lia.
Qed.

Lemma chain_height (Op : BinaryOperatorKind) (i len : nat) :
  height (Fixture.chainSelection Op i len) = len + 2.
Proof.
  induction len as [|len IH]; [reflexivity|].
  cbn [Fixture.chainSelection height nodeChildren fold_right]. rewrite IH.
  cbn [Fixture.leaf height nodeChildren fold_right]. lia.
Qed.

(** C2.  In the chain [x0 op x1 op ... op xn] of an associative operator,
    which the AST groups to the left, let the selection cover exactly the
    operands [xi] to [xj] with [1 <= i < j].  The extraction range computed
    at the common ancestor [x0 op ... op xj] starts where [xi] starts and ends
    where [xj] ends; it is not the range of the ancestor, which starts where
    [x0] starts.  This is the range of the helper [getBinaryOperatorRange]
    and the range [getExtractionChars] gives for the context that the
    constructor builds on the ancestor, and for every context on that node.
    For [a + b + c + d] with [b + c] selected the range is that of
    [b + c]. *)
Theorem chain_range :
  forall (Op : BinaryOperatorKind) (i len : nat) (Up : list TreeNode)
         (Buffer : string) (LangOpts : LangOptions),
    isAssociativeKind Op = true ->
    1 <= i ->
    getBinaryOperatorRange (mkNode (Fixture.chainSelection Op i (S len)) Up)
      (Fixture.fileSM Buffer) LangOpts =
    Some (mkRange (FileLoc (4 * i)) (FileLoc (4 * (i + S len) + 1))) /\
    (forall EC : ExtractionContext,
        ExprNode EC = mkNode (Fixture.chainSelection Op i (S len)) Up ->
        SM EC = Fixture.fileSM Buffer ->
        getExtractionChars EC =
        Some (mkRange (FileLoc (4 * i)) (FileLoc (4 * (i + S len) + 1)))) /\
    (exists EC : ExtractionContext,
        newExtractionContext (mkNode (Fixture.chainSelection Op i (S len)) Up)
          (Fixture.fileSM Buffer) {| getLangOpts := LangOpts |} = Some EC /\
        Expr EC = Fixture.chainExpr Op (i + S len) /\
        getExtractionChars EC =
        Some (mkRange (FileLoc (4 * i)) (FileLoc (4 * (i + S len) + 1)))) /\
    toHalfOpenFileRange (Fixture.fileSM Buffer) LangOpts
      (getSourceRange (Fixture.chainExpr Op (i + S len))) =
    Some (mkRange (FileLoc 0) (FileLoc (4 * (i + S len) + 1))) /\
    FileLoc (4 * i) <> FileLoc 0.
Proof.
  intros Op i len Up Buffer LangOpts HA Hi.
  assert (HR : forall LO,
             getBinaryOperatorRange (mkNode (Fixture.chainSelection Op i (S len)) Up)
               (Fixture.fileSM Buffer) LO =
             Some (mkRange (FileLoc (4 * i)) (FileLoc (4 * (i + S len) + 1)))).
  { intro LO. unfold getBinaryOperatorRange.
    rewrite (chain_ignoreImplicit Op i _ Up Hi), (chain_parse Op i _ Up Hi).
    unfold isAssociativeKind, associative in HA. cbn [Kind] in HA.
    unfold associative. cbn [Kind]. rewrite HA. cbn [negb].
    rewrite chain_crosses. cbn [SelectedOperands]. rewrite chain_Children.
    cbn [This]. rewrite chain_height.
    destruct (chain_pushDownStart Op i Buffer Hi len (S len + 2)
                (Fixture.chainSelection Op i (S len) :: Up)) as [Up' ->]; [lia|].
    reflexivity. }
  assert (HC : forall EC : ExtractionContext,
             ExprNode EC = mkNode (Fixture.chainSelection Op i (S len)) Up ->
             SM EC = Fixture.fileSM Buffer ->
             getExtractionChars EC =
             Some (mkRange (FileLoc (4 * i)) (FileLoc (4 * (i + S len) + 1)))).
  { intros EC HN HS. unfold getExtractionChars. rewrite HN, HS, HR.
    reflexivity. }
  split; [apply HR|]. split; [exact HC|]. split; [|split].
  - unfold newExtractionContext, ASTNode. cbn [This].
    rewrite chain_node_expr.
    destruct (chainExpr_is_expr Op (i + S len) Buffer) as [-> _].
    eexists. split; [reflexivity|]. split; [reflexivity|].
    apply HC; reflexivity.
  - rewrite Nat.add_succ_r. reflexivity.
  - intro H. injection H as H. lia.
Qed.

Lemma chain_range_witness :
  getBinaryOperatorRange Fixture.abc_in_abcd (Fixture.fileSM "a + b + c + d")
    {| CPlusPlus11 := true |} =
  Some (mkRange (FileLoc 4) (FileLoc 9)) /\
  (forall EC : ExtractionContext,
      ExprNode EC = Fixture.abc_in_abcd ->
      SM EC = Fixture.fileSM "a + b + c + d" ->
      getExtractionChars EC = Some (mkRange (FileLoc 4) (FileLoc 9))) /\
  (exists EC : ExtractionContext,
      newExtractionContext Fixture.abc_in_abcd (Fixture.fileSM "a + b + c + d")
        Fixture.cxx17 = Some EC /\
      Expr EC = Fixture.chainExpr BO_Add 2 /\
      getExtractionChars EC = Some (mkRange (FileLoc 4) (FileLoc 9))) /\
  toHalfOpenFileRange (Fixture.fileSM "a + b + c + d") {| CPlusPlus11 := true |}
    (getSourceRange (Fixture.chainExpr BO_Add 2)) =
  Some (mkRange (FileLoc 0) (FileLoc 9)) /\
  FileLoc 4 <> FileLoc 0.
Proof.
  apply (chain_range BO_Add 1 0 [Fixture.abcd] "a + b + c + d"
           {| CPlusPlus11 := true |}); [reflexivity | lia].
Defined.

(** ** Edits *)

Lemma addReplacement_contract : addContract addReplacement.
Proof.
  intros Rs R Rs'. unfold addReplacement.
  destruct (existsb (fun R' => negb (Nat.eqb (FilePath R') (FilePath R))) Rs)
    eqn:HF; [discriminate|].
  destruct (existsb (overlapsWith R) Rs) eqn:HO; [discriminate|].
  intro H; injection H as <-. split.
  - apply Permutation_sym, Permutation_cons_append.
  - apply Forall_forall. intros R' HIn. split.
    + destruct (Nat.eqb (FilePath R') (FilePath R)) eqn:HE.
      * apply Nat.eqb_eq, HE.
      * assert (HX : existsb (fun R' => negb (Nat.eqb (FilePath R') (FilePath R))) Rs = true).
        { apply existsb_exists. exists R'. rewrite HE. auto. }
        congruence.
    + destruct (overlapsWith R R') eqn:HE; [|reflexivity].
      assert (HX : existsb (overlapsWith R) Rs = true).
      { apply existsb_exists. exists R'. auto. }
      congruence.
Qed.

Lemma computeExtractedExpr_eligible (X : option Node) (N : Node) :
  computeExtractedExpr X = Some N -> eligibleForExtraction N = true.
Proof.
  unfold computeExtractedExpr. destruct X as [X|]; [|discriminate].
  destruct (get_Expr (ASTNode X)) as [SelectedExpr|]; [|discriminate].
  match goal with
  | |- (if ?c then _ else _) = _ -> _ => destruct c; [discriminate|]
  end.
  match goal with
  | |- (if negb (eligibleForExtraction ?T) then _ else _) = _ -> _ =>
      destruct (eligibleForExtraction T) eqn:HEl; [|discriminate]
  end.
  simpl. intro H; injection H as <-. exact HEl.
Qed.

(** [prepare] always has a result: the node it builds a context for holds an
    expression. *)
Lemma prepare_defined (Inputs : Selection) (Target : option ExtractionContext) :
  prepare Inputs Target <> None.
Proof.
  unfold prepare.
  destruct (Nat.eqb (SelectionBegin Inputs) (SelectionEnd Inputs)); [discriminate|].
  destruct (computeExtractedExpr (commonAncestor Inputs)) as [N|] eqn:HN;
    [|discriminate].
  apply computeExtractedExpr_eligible in HN.
  unfold eligibleForExtraction in HN. unfold newExtractionContext.
  destruct (get_Expr (ASTNode N)); [discriminate | discriminate HN].
Qed.

Lemma prepare_true (Inputs : Selection) (Target : ExtractionContext) :
  prepare Inputs None = Some (true, Some Target) ->
  (exists P, Parent (outerImplicit (getExprNode Target)) = Some P) /\
  (exists IP, InsertionPoint Target = Some IP) /\
  isExtractable Target = true.
Proof.
  unfold prepare.
  destruct (Nat.eqb (SelectionBegin Inputs) (SelectionEnd Inputs)); [discriminate|].
  destruct (computeExtractedExpr (commonAncestor Inputs)) as [N|] eqn:HN;
    [|discriminate].
  destruct (newExtractionContext N (getSourceManager Inputs) (getASTContext Inputs))
    as [EC|] eqn:HEC; [|discriminate].
  intro H; injection H as HX <-.
  apply computeExtractedExpr_eligible in HN.
  unfold newExtractionContext in HEC.
  destruct (get_Expr (ASTNode N)) as [E|]; [|discriminate].
  injection HEC as <-. unfold isExtractable, getExprNode in *; simpl in *.
  split; [|split].
  - destruct (Parent (outerImplicit N)) as [P|] eqn:HP; [eauto|].
    rewrite (eligibleForExtraction_needs_parent N HP) in HN. discriminate HN.
  - destruct (computeInsertionPoint (getSourceManager Inputs)
                (computeReferencedDecls E) N); [eauto|].
    simpl in HX. destruct (isNull (computeVariableType E (getASTContext Inputs)));
      discriminate HX.
  - exact HX.
Qed.

Section ApplyProperties.

Variable printType : QualType -> Node -> string -> string.
Variable Error : Type.
Variable add : list Replacement -> Replacement -> Error + list Replacement.

Lemma apply_unfold (Inputs : Selection) (Target : ExtractionContext)
    (Chars R : SourceRange) (P : Node) (IP : Stmt) :
  getExtractionChars Target = Some Chars ->
  Parent (outerImplicit (getExprNode Target)) = Some P ->
  InsertionPoint Target = Some IP ->
  toHalfOpenFileRange (SM Target) (getLangOpts (Ctx Target)) (getSourceRange IP)
    = Some R ->
  apply printType add Inputs (Some Target) =
  Some match add [] (declarationEdit printType Target Chars R P) with
       | inl Err => inl Err
       | inr Result =>
           match add Result (substitutionEdit Target Chars P) with
           | inl Err => inl Err
           | inr Result => inr (mainFileEdit Result)
           end
       end.
Proof.
  intros HC HP HIP HR. unfold apply, insertDeclaration.
  rewrite HC, HP, HIP, HR.
  unfold declarationEdit, substitutionEdit, declarationText, isExprStmt.
  destruct (match get_Stmt (ASTNode P) with
            | Some St => isa_CompoundStmt St
            | None => false
            end); simpl;
    destruct (add [] _) as [Err|Result]; try reflexivity;
    destruct (add Result _); reflexivity.
Qed.

Lemma apply_defined_inv (Inputs : Selection) (Target : option ExtractionContext)
    (Outcome : Error + Effect) :
  apply printType add Inputs Target = Some Outcome ->
  exists EC Chars R P IP,
    Target = Some EC /\
    getExtractionChars EC = Some Chars /\
    Parent (outerImplicit (getExprNode EC)) = Some P /\
    InsertionPoint EC = Some IP /\
    toHalfOpenFileRange (SM EC) (getLangOpts (Ctx EC)) (getSourceRange IP)
      = Some R.
Proof.
  unfold apply, insertDeclaration. destruct Target as [EC|]; [|discriminate].
  destruct (getExtractionChars EC) as [Chars|] eqn:HC; [|discriminate].
  destruct (Parent (outerImplicit (getExprNode EC))) as [P|] eqn:HP;
    [|discriminate].
  destruct (InsertionPoint EC) as [IP|] eqn:HIP; [|discriminate].
  destruct (toHalfOpenFileRange (SM EC) (getLangOpts (Ctx EC)) (getSourceRange IP))
    as [R|] eqn:HR; [|discriminate].
  intros _. exists EC, Chars, R, P, IP. repeat split; assumption.
Qed.

Lemma two_adds (D S : Replacement) (R1 R2 : list Replacement) :
  addContract add ->
  add [] D = inr R1 -> add R1 S = inr R2 ->
  Permutation R2 [S; D] /\ FilePath D = FilePath S /\ overlapsWith S D = false.
Proof.
  intros HA H1 H2.
  destruct (HA _ _ _ H1) as [P1 _]. destruct (HA _ _ _ H2) as [P2 F2].
  split.
  - apply (Permutation_trans P2). apply perm_skip. exact P1.
  - assert (HIn : In D R1) by (apply (Permutation_in D (Permutation_sym P1)); left; reflexivity).
    rewrite Forall_forall in F2. destruct (F2 D HIn) as [HF HO]. auto.
Qed.

End ApplyProperties.

(** C4.  For a candidate that [prepare] found extractable, and whenever the
    extraction range and the file range of the insertion point are defined,
    [apply] has a result.  It is either the error that the edit set reported
    for the declaration or for the substitution, or the edit set that holds
    exactly these two edits, which lie in the same buffer and do not
    overlap.  An effect with only one of the edits is never returned.  The
    declaration is the insertion, of length 0 and where the insertion point
    begins, of the printed type and name, [ = ] and the source text of the
    extraction range, closed by a semicolon unless the extraction is a
    statement of its own; the substitution replaces the extraction range,
    from its begin over its length, by the name of the variable, or by
    nothing if the extraction is a statement of its own. *)
Theorem apply_complete_or_error :
  forall (printType : QualType -> Node -> string -> string) (Error : Type)
         (add : list Replacement -> Replacement -> Error + list Replacement)
         (Inputs : Selection) (Target : ExtractionContext) (Chars : SourceRange),
    addContract add ->
    prepare Inputs None = Some (true, Some Target) ->
    getExtractionChars Target = Some Chars ->
    (forall IP, InsertionPoint Target = Some IP ->
                toHalfOpenFileRange (SM Target) (getLangOpts (Ctx Target))
                  (getSourceRange IP) <> None) ->
    exists (P : Node) (IP : Stmt) (R : SourceRange) (Outcome : Error + Effect),
      Parent (outerImplicit (getExprNode Target)) = Some P /\
      InsertionPoint Target = Some IP /\
      toHalfOpenFileRange (SM Target) (getLangOpts (Ctx Target))
        (getSourceRange IP) = Some R /\
      apply printType add Inputs (Some Target) = Some Outcome /\
      let Declaration :=
        {| FilePath := getFileID (SM Target) (getBegin R);
           Offset := getFileOffset (SM Target) (getBegin R);
           Length := 0;
           ReplacementText :=
             if isExprStmt P
             then (printType (VarType Target) (ExprNode Target) "placeholder" ++
                   " = " ++ toSourceCode (SM Target) Chars)%string
             else ((printType (VarType Target) (ExprNode Target) "placeholder" ++
                    " = " ++ toSourceCode (SM Target) Chars) ++ "; ")%string |} in
      let Substitution :=
        {| FilePath := getFileID (SM Target) (getBegin Chars);
           Offset := getFileOffset (SM Target) (getBegin Chars);
           Length :=
             ((getFileOffset (SM Target) (getEnd Chars) -
               getFileOffset (SM Target) (getBegin Chars)) mod 2 ^ 32)%Z;
           ReplacementText :=
             if isExprStmt P then EmptyString else "placeholder"%string |} in
      ((exists Err,
           Outcome = inl Err /\
           (add [] Declaration = inl Err \/
            exists Result,
              add [] Declaration = inr Result /\
              add Result Substitution = inl Err)) \/
       (exists Result,
           Outcome = inr (mainFileEdit Result) /\
           Permutation Result [Substitution; Declaration] /\
           FilePath Declaration = FilePath Substitution /\
           overlapsWith Substitution Declaration = false)).
Proof.
  intros printType Error add Inputs Target Chars HA HPrep HC HFile.
  destruct (prepare_true Inputs Target HPrep) as ((P & HP) & (IP & HIP) & _).
  destruct (toHalfOpenFileRange (SM Target) (getLangOpts (Ctx Target))
              (getSourceRange IP)) as [R|] eqn:HR;
    [|contradiction (HFile IP HIP HR)].
  exists P, IP, R. eexists. split; [exact HP|]. split; [exact HIP|].
  split; [exact HR|].
  split; [apply (apply_unfold printType Error add Inputs Target Chars R P IP);
          assumption|].
  cbv zeta.
  change {| FilePath := getFileID (SM Target) (getBegin R);
            Offset := getFileOffset (SM Target) (getBegin R);
            Length := 0;
            ReplacementText :=
              if isExprStmt P
              then (printType (VarType Target) (ExprNode Target) "placeholder" ++
                    " = " ++ toSourceCode (SM Target) Chars)%string
              else ((printType (VarType Target) (ExprNode Target) "placeholder" ++
                     " = " ++ toSourceCode (SM Target) Chars) ++ "; ")%string |}
    with (declarationEdit printType Target Chars R P).
  change {| FilePath := getFileID (SM Target) (getBegin Chars);
            Offset := getFileOffset (SM Target) (getBegin Chars);
            Length :=
              ((getFileOffset (SM Target) (getEnd Chars) -
                getFileOffset (SM Target) (getBegin Chars)) mod 2 ^ 32)%Z;
            ReplacementText :=
              if isExprStmt P then EmptyString else "placeholder"%string |}
    with (substitutionEdit Target Chars P).
  destruct (add [] (declarationEdit printType Target Chars R P))
    as [Err|R1] eqn:H1.
  - left. exists Err. split; [reflexivity | left; reflexivity].
  - destruct (add R1 (substitutionEdit Target Chars P)) as [Err|R2] eqn:H2.
    + left. exists Err. split; [reflexivity|]. right. exists R1. auto.
    + right. exists R2. split; [reflexivity|].
      apply (two_adds Error add _ _ R1 R2 HA H1 H2).
Qed.

Lemma apply_complete_or_error_witness :
  exists (P : Node) (IP : Stmt) (R : SourceRange)
         (Outcome : ReplacementError + Effect),
    Parent (outerImplicit (getExprNode Fixture.Block.target)) = Some P /\
    InsertionPoint Fixture.Block.target = Some IP /\
    toHalfOpenFileRange (SM Fixture.Block.target)
      (getLangOpts (Ctx Fixture.Block.target)) (getSourceRange IP) = Some R /\
    apply Fixture.printAuto addReplacement Fixture.Block.inputs
      (Some Fixture.Block.target) = Some Outcome /\
    let Declaration :=
      {| FilePath := getFileID (SM Fixture.Block.target) (getBegin R);
         Offset := getFileOffset (SM Fixture.Block.target) (getBegin R);
         Length := 0;
         ReplacementText :=
           if isExprStmt P
           then (Fixture.printAuto (VarType Fixture.Block.target)
                   (ExprNode Fixture.Block.target) "placeholder" ++
                 " = " ++ toSourceCode (SM Fixture.Block.target)
                            (mkRange (FileLoc 15) (FileLoc 20)))%string
           else ((Fixture.printAuto (VarType Fixture.Block.target)
                    (ExprNode Fixture.Block.target) "placeholder" ++
                  " = " ++ toSourceCode (SM Fixture.Block.target)
                             (mkRange (FileLoc 15) (FileLoc 20))) ++ "; ")%string |} in
    let Substitution :=
      {| FilePath := getFileID (SM Fixture.Block.target) (FileLoc 15);
         Offset := getFileOffset (SM Fixture.Block.target) (FileLoc 15);
         Length :=
           ((getFileOffset (SM Fixture.Block.target) (FileLoc 20) -
             getFileOffset (SM Fixture.Block.target) (FileLoc 15)) mod 2 ^ 32)%Z;
         ReplacementText :=
           if isExprStmt P then EmptyString else "placeholder"%string |} in
    ((exists Err,
         Outcome = inl Err /\
         (addReplacement [] Declaration = inl Err \/
          exists Result,
            addReplacement [] Declaration = inr Result /\
            addReplacement Result Substitution = inl Err)) \/
     (exists Result,
         Outcome = inr (mainFileEdit Result) /\
         Permutation Result [Substitution; Declaration] /\
         FilePath Declaration = FilePath Substitution /\
         overlapsWith Substitution Declaration = false)).
Proof.
  apply (apply_complete_or_error Fixture.printAuto ReplacementError
           addReplacement Fixture.Block.inputs Fixture.Block.target
           (mkRange (FileLoc 15) (FileLoc 20))).
  - exact addReplacement_contract.
  - reflexivity.
  - reflexivity.
  - intros IP H. injection H as <-. discriminate.
Defined.

(** C8.  When [apply] returns an effect, its edits are the substitution and
    the declaration.  The substitution replaces the extraction range -- from
    its begin, over the length between its begin and its end.  If the
    extraction is an expression statement (the parent of the candidate,
    wrapped in its implicit parents, is a compound statement) the
    substitution text is empty and the declaration has no closing semicolon;
    if it is not, the substitution text is the variable name and the
    declaration ends in a semicolon. *)
Theorem substitution_and_semicolon :
  forall (printType : QualType -> Node -> string -> string) (Error : Type)
         (add : list Replacement -> Replacement -> Error + list Replacement)
         (Inputs : Selection) (Target : option ExtractionContext)
         (Result : list Replacement),
    addContract add ->
    apply printType add Inputs Target = Some (inr (mainFileEdit Result)) ->
    exists (EC : ExtractionContext) (Chars : SourceRange) (P : Node)
           (Declaration Substitution : Replacement),
      Target = Some EC /\
      getExtractionChars EC = Some Chars /\
      Parent (outerImplicit (getExprNode EC)) = Some P /\
      Permutation Result [Substitution; Declaration] /\
      FilePath Substitution = getFileID (SM EC) (getBegin Chars) /\
      Offset Substitution = getFileOffset (SM EC) (getBegin Chars) /\
      Length Substitution =
        ((getFileOffset (SM EC) (getEnd Chars) -
          getFileOffset (SM EC) (getBegin Chars)) mod 2 ^ 32)%Z /\
      Length Declaration = 0%Z /\
      (isExprStmt P = true ->
       ReplacementText Substitution = EmptyString /\
       ReplacementText Declaration = declarationText printType EC Chars) /\
      (isExprStmt P = false ->
       ReplacementText Substitution = "placeholder"%string /\
       ReplacementText Declaration =
         (declarationText printType EC Chars ++ "; ")%string).
Proof.
  intros printType Error add Inputs Target Result HA HApply.
  destruct (apply_defined_inv printType Error add Inputs Target _ HApply)
    as (EC & Chars & R & P & IP & -> & HC & HP & HIP & HR).
  rewrite (apply_unfold printType Error add Inputs EC Chars R P IP HC HP HIP HR)
    in HApply.
  destruct (add [] (declarationEdit printType EC Chars R P)) as [Err|R1] eqn:H1;
    [discriminate HApply|].
  destruct (add R1 (substitutionEdit EC Chars P)) as [Err|R2] eqn:H2;
    [discriminate HApply|].
  injection HApply as ->.
  exists EC, Chars, P, (declarationEdit printType EC Chars R P),
    (substitutionEdit EC Chars P).
  destruct (two_adds Error add _ _ R1 Result HA H1 H2) as (HPerm & _ & _).
  repeat (split; [first [reflexivity | assumption]|]).
  unfold declarationEdit, substitutionEdit, replaceWithVar, newReplacement.
  split; intros ->; split; reflexivity.
Qed.

Lemma substitution_and_semicolon_witness :
  exists (EC : ExtractionContext) (Chars : SourceRange) (P : Node)
         (Declaration Substitution : Replacement),
    Some Fixture.ExprStatement.target = Some EC /\
    getExtractionChars EC = Some Chars /\
    Parent (outerImplicit (getExprNode EC)) = Some P /\
    Permutation
      [ {| FilePath := 1; Offset := 2; Length := 0;
           ReplacementText := "auto placeholder = a + b" |};
        {| FilePath := 1; Offset := 2; Length := 5; ReplacementText := EmptyString |} ]
      [Substitution; Declaration] /\
    FilePath Substitution = getFileID (SM EC) (getBegin Chars) /\
    Offset Substitution = getFileOffset (SM EC) (getBegin Chars) /\
    Length Substitution =
      ((getFileOffset (SM EC) (getEnd Chars) -
        getFileOffset (SM EC) (getBegin Chars)) mod 2 ^ 32)%Z /\
    Length Declaration = 0%Z /\
    (isExprStmt P = true ->
     ReplacementText Substitution = EmptyString /\
     ReplacementText Declaration = declarationText Fixture.printAuto EC Chars) /\
    (isExprStmt P = false ->
     ReplacementText Substitution = "placeholder"%string /\
     ReplacementText Declaration =
       (declarationText Fixture.printAuto EC Chars ++ "; ")%string).
Proof.
  apply (substitution_and_semicolon Fixture.printAuto ReplacementError
           addReplacement Fixture.ExprStatement.inputs
           (Some Fixture.ExprStatement.target)).
  - exact addReplacement_contract.
  - reflexivity.
Defined.

(** The two test programs after [prepare] and [apply]: the statement
    [f(y + 1);] gets the declaration in front and the variable in place of
    [y + 1]; the expression statement [a + b;] becomes the declaration. *)
Example apply_Block :
  prepare Fixture.Block.inputs None = Some (true, Some Fixture.Block.target) /\
  apply Fixture.printAuto addReplacement Fixture.Block.inputs
    (Some Fixture.Block.target) =
  Some (inr (mainFileEdit
    [ {| FilePath := 1; Offset := 13; Length := 0;
         ReplacementText := "auto placeholder = y + 1; " |};
      {| FilePath := 1; Offset := 15; Length := 5;
         ReplacementText := "placeholder" |} ])).
Proof. split; reflexivity. Qed.

Example apply_ExprStatement :
  prepare Fixture.ExprStatement.inputs None =
    Some (true, Some Fixture.ExprStatement.target) /\
  apply Fixture.printAuto addReplacement Fixture.ExprStatement.inputs
    (Some Fixture.ExprStatement.target) =
  Some (inr (mainFileEdit
    [ {| FilePath := 1; Offset := 2; Length := 0;
         ReplacementText := "auto placeholder = a + b" |};
      {| FilePath := 1; Offset := 2; Length := 5; ReplacementText := EmptyString |} ])).
Proof. split; reflexivity. Qed.

(** ** Reference collector *)

Lemma fold_left_flat_map {A B C : Type} (g : C -> B -> C) (f : A -> list B)
    (l : list A) (c : C) :
  fold_left (fun c x => fold_left g (f x) c) l c = fold_left g (flat_map f l) c.
Proof.
  revert c. induction l as [|x l IH]; intro c; simpl; [reflexivity|].
  rewrite fold_left_app. apply IH.
Qed.

Lemma fold_left_concat {B C : Type} (g : C -> B -> C) (l : list (list B)) (c : C) :
  fold_left (fun c x => fold_left g x c) l c = fold_left g (List.concat l) c.
Proof.
  revert c. induction l as [|x l IH]; intro c; simpl; [reflexivity|].
  rewrite fold_left_app. apply IH.
Qed.

Lemma TraverseOptStmt_fold (O : option Stmt) (V : list Decl) :
  TraverseOptStmt TraverseStmt O V =
  fold_left (fun V C => TraverseStmt C V) (optStmt O) V.
Proof. destruct O; reflexivity. Qed.

Lemma TraverseStmt_children (St : Stmt) (V : list Decl) :
  TraverseStmt St V =
  fold_left (fun V C => TraverseStmt C V) (traversedChildren St) (visitHook St V).
Proof.
  destruct St; simpl; try reflexivity;
    unfold TraverseStmts, TraverseDecl;
    rewrite ?fold_left_app, ?TraverseOptStmt_fold; try reflexivity.
  - (* LambdaExpr *)
    unfold TraverseLambdaExpr.
    rewrite <- (fold_left_flat_map (fun V C => TraverseStmt C V) captureStmts).
    rewrite <- (fold_left_flat_map (fun V C => TraverseStmt C V) (@DeclStmts Stmt)).
    assert (HC : forall V0,
               fold_left (fun V CI => TraverseLambdaCapture TraverseStmt (fst CI) (snd CI) V)
                 captures V0 =
               fold_left (fun c x => fold_left (fun V C => TraverseStmt C V)
                                       (captureStmts x) c) captures V0).
    { intro V0. revert V0. induction captures as [|CI captures IHc]; intro V0;
        simpl; [reflexivity|]. rewrite <- IHc. f_equal.
      unfold TraverseLambdaCapture, captureStmts, TraverseDecl, TraverseStmts.
      destruct (IsInitCapture (fst CI)); [reflexivity|].
      apply TraverseOptStmt_fold. }
    rewrite HC.
    assert (HR : forall V0,
               match TrailingRequiresClause with
               | Some RC => TraverseStmt RC V0
               | None => V0
               end = fold_left (fun V C => TraverseStmt C V)
                       (optStmt TrailingRequiresClause) V0).
    { intro V0. destruct TrailingRequiresClause; reflexivity. }
    rewrite HR.
    unfold TraverseDecl, TraverseStmts.
    destruct CallOperator as [CO|]; [|reflexivity].
    unfold callOperatorStmts, TraverseType, TraverseParmVarDecl, TraverseAttr,
      TraverseDecl, TraverseStmts.
    rewrite !fold_left_app.
    rewrite <- (fold_left_flat_map (fun V C => TraverseStmt C V) (@DeclStmts Stmt)).
    rewrite <- (fold_left_concat (fun V C => TraverseStmt C V)).
    reflexivity.
  - (* DeclStmt *)
    apply (fold_left_flat_map (fun V C => TraverseStmt C V) (@DeclStmts Stmt)).
Qed.

Section TraversalInduction.

Variable P : Stmt -> Prop.
Hypothesis step : forall St, Forall P (traversedChildren St) -> P St.

Lemma Stmt_traversal_ind : forall St, P St.
Proof.
  fix IH 1. intro St.
  apply step.
  destruct St; simpl;
    repeat (apply Forall_app; split);
    repeat match goal with
      | |- Forall P [] => constructor
      | |- Forall P (_ :: _) => constructor; [apply IH|]
      | |- Forall P (optStmt ?O) =>
          destruct O; simpl; [constructor; [apply IH | constructor] | constructor]
      end.
  - induction Args as [|A Args IHA]; constructor; [apply IH | exact IHA].
  - induction Args as [|A Args IHA]; constructor; [apply IH | exact IHA].
  - induction captures as [|[[init [d ds]] o] captures IHc]; simpl;
      [constructor|]. apply Forall_app; split; [|exact IHc].
    unfold captureStmts; simpl. destruct init.
    + induction ds as [|x ds IHd]; constructor; [apply IH | exact IHd].
    + destruct o; simpl; [constructor; [apply IH | constructor] | constructor].
  - induction ExplicitTemplateParameters as [|[d ds] tps IHt]; simpl;
      [constructor|]. apply Forall_app; split; [|exact IHt].
    induction ds as [|x ds IHd]; constructor; [apply IH | exact IHd].
  - destruct CallOperator as [[rt ps ats]|]; [|constructor].
    unfold callOperatorStmts; simpl.
    repeat (apply Forall_app; split).
    + induction rt as [|x rt IHr]; constructor; [apply IH | exact IHr].
    + induction ps as [|[d ds] ps IHp]; simpl; [constructor|].
      apply Forall_app; split; [|exact IHp].
      induction ds as [|x ds IHd]; constructor; [apply IH | exact IHd].
    + induction ats as [|a ats IHa]; simpl; [constructor|].
      apply Forall_app; split; [|exact IHa].
      induction a as [|x a IHx]; constructor; [apply IH | exact IHx].
  - induction Sub as [|x Sub IHs]; constructor; [apply IH | exact IHs].
  - induction Sub as [|x Sub IHs]; constructor; [apply IH | exact IHs].
  - induction Body as [|x Body IHs]; constructor; [apply IH | exact IHs].
  - induction Decls as [|[d ds] Decls IHp]; simpl; [constructor|].
    apply Forall_app; split; [|exact IHp].
    induction ds as [|x ds IHd]; constructor; [apply IH | exact IHd].
  - induction Sub as [|x Sub IHs]; constructor; [apply IH | exact IHs].
  - induction Sub as [|x Sub IHs]; constructor; [apply IH | exact IHs].
Qed.

End TraversalInduction.

Lemma fold_children_collects (d : Decl) (L : list Stmt) :
  Forall Collects L ->
  forall V : list Decl,
    In d (fold_left (fun V C => TraverseStmt C V) L V) <->
    In d V \/
    exists C i, In C L /\ Visits C (DeclRefExpr i d) /\ isClosureMethod d = false.
Proof.
  induction 1 as [|C L HC HL IH]; intro V; simpl.
  - split; [auto | intros [H|(C & i & [] & _)]; exact H].
  - rewrite IH, (HC V d). split.
    + intros [[H|(i & HV & Hd)]|(C' & i & HIn & HV & Hd)]; eauto 8.
    + intros [H|(C' & i & [<-|HIn] & HV & Hd)]; eauto 8.
Qed.

Lemma Visits_inv (E X : Stmt) :
  Visits E X -> X = E \/ exists C, In C (traversedChildren E) /\ Visits C X.
Proof. intro H; destruct H; eauto. Qed.

Lemma VisitDeclRefExpr_In (D d : Decl) (V : list Decl) :
  In d (VisitDeclRefExpr D V) <-> In d V \/ (d = D /\ isClosureMethod d = false).
Proof.
  unfold VisitDeclRefExpr. fold (isClosureMethod D).
  destruct (isClosureMethod D) eqn:HD.
  - split; [auto | intros [H|[-> H]]; [exact H | congruence]].
  - rewrite in_app_iff; simpl. split.
    + intros [H|[<-|[]]]; auto.
    + intros [H|[-> _]]; auto.
Qed.

Lemma TraverseStmt_collects : forall St, Collects St.
Proof.
  apply Stmt_traversal_ind. intros St HCh V d.
  rewrite TraverseStmt_children, (fold_children_collects d _ HCh).
  split.
  - intros [H|(C & i & HIn & HV & Hd)].
    + destruct St; simpl in H; auto.
      apply VisitDeclRefExpr_In in H. destruct H as [H|[-> Hd]]; [auto|].
      right. exists i. split; [constructor | exact Hd].
    + right. exists i. split; [|exact Hd]. apply Visits_below with C; assumption.
  - intros [H|(i & HV & Hd)].
    + left. destruct St; simpl; auto. apply VisitDeclRefExpr_In. auto.
    + apply Visits_inv in HV. destruct HV as [<-|(C & HIn & HV)].
      * left. simpl. apply VisitDeclRefExpr_In. auto.
      * right. exists C, i. auto.
Qed.

Lemma nil_of_no_member {A : Type} (l : list A) : (forall x, ~ In x l) -> l = [].
Proof. destruct l as [|a l]; [reflexivity|]. intro H. destruct (H a). left. reflexivity. Qed.

(** C6 (as amended).  The collector returns the declaration of every bare
    reference that its traversal of the candidate expression visits, except
    the references to a member function of a closure type -- such as the
    call operator that the callee of a closure call names, whether the
    closure is called where it is written or through a variable -- and it
    returns nothing else.  It is a total function, and its result is empty
    when there is no reference to include. *)
Theorem collected_references :
  (forall (E : Stmt) (d : Decl),
      In d (computeReferencedDecls E) <->
      exists i, Visits E (DeclRefExpr i d) /\ isClosureMethod d = false) /\
  (forall E : Stmt,
      (forall i d, Visits E (DeclRefExpr i d) -> isClosureMethod d = true) ->
      computeReferencedDecls E = []).
Proof.
  assert (H1 : forall (E : Stmt) (d : Decl),
             In d (computeReferencedDecls E) <->
             exists i, Visits E (DeclRefExpr i d) /\ isClosureMethod d = false).
  { intros E d. unfold computeReferencedDecls.
    rewrite (TraverseStmt_collects E [] d). simpl. tauto. }
  split; [exact H1|].
  intros E HE. apply nil_of_no_member. intros d Hd.
  apply H1 in Hd. destruct Hd as (i & HV & Hd).
  rewrite (HE i d HV) in Hd. discriminate Hd.
Qed.

Lemma Visits_ClosureCall (X : Stmt) :
  Visits Fixture.ClosureCall.call X ->
  X = Fixture.ClosureCall.call \/
  X = ImplicitCastExpr (Fixture.expr 2 24 25 24) Fixture.ClosureCall.calleeRef \/
  X = Fixture.ClosureCall.calleeRef \/ X = Fixture.ClosureCall.fRef.
Proof.
  intro H. apply Visits_inv in H. destruct H as [->|(C & HIn & H)]; [auto|].
  simpl in HIn. destruct HIn as [<-|[<-|[]]].
  - apply Visits_inv in H. destruct H as [->|(C & HIn & H)]; [auto|].
    simpl in HIn. destruct HIn as [<-|[]].
    apply Visits_inv in H. destruct H as [->|(C & [] & _)]. auto.
  - apply Visits_inv in H. destruct H as [->|(C & [] & _)]. auto.
Qed.

(** C6 as it is stated fails: in [f()], where [f] holds a closure, the callee
    is a bare reference to the call operator and no closure is invoked where
    it is written, yet the call operator is not collected. *)
Lemma closure_call_counterexample :
  ~ (forall (E : Stmt) (i : StmtInfo) (d : Decl),
        Visits E (DeclRefExpr i d) ->
        ~ immediatelyInvokedCallee E (DeclRefExpr i d) ->
        In d (computeReferencedDecls E)).
Proof.
  intro H.
  specialize (H Fixture.ClosureCall.call (Fixture.expr 1 24 25 24) Fixture.ClosureCall.callOperator).
  assert (HV : Visits Fixture.ClosureCall.call
                 (DeclRefExpr (Fixture.expr 1 24 25 24) Fixture.ClosureCall.callOperator)).
  { apply Visits_below with (ImplicitCastExpr (Fixture.expr 2 24 25 24) Fixture.ClosureCall.calleeRef);
      [left; reflexivity|].
    apply Visits_below with Fixture.ClosureCall.calleeRef; [left; reflexivity|].
    constructor. }
  assert (HN : ~ immediatelyInvokedCallee Fixture.ClosureCall.call
                   (DeclRefExpr (Fixture.expr 1 24 25 24) Fixture.ClosureCall.callOperator)).
  { intros (i & infix & opc & Callee & Obj & Args & HC & _ & HL).
    apply Visits_ClosureCall in HC.
    destruct HC as [HC|[HC|[HC|HC]]]; try discriminate HC.
    injection HC; intros; subst. discriminate HL. }
  specialize (H HV HN). vm_compute in H.
  destruct H as [H|[]]. discriminate H.
Qed.

Lemma collected_references_witness :
  computeReferencedDecls Fixture.ClosureCall.calleeRef = [].
Proof.
  apply (proj2 collected_references Fixture.ClosureCall.calleeRef).
  intros i d H. apply Visits_inv in H.
  destruct H as [H|(C & [] & _)]. injection H as _ ->. reflexivity.
Defined.

(** The closure that is invoked where it is written contributes its capture
    and neither its call operator nor what only its body names. *)
Example immediately_invoked_closure :
  computeReferencedDecls Fixture.ImmediateCall.call = [Fixture.ImmediateCall.x] /\
  immediatelyInvokedCallee Fixture.ImmediateCall.call
    Fixture.ImmediateCall.calleeRef.
Proof.
  split; [reflexivity|].
  exists (Fixture.expr 10 13 33 32), false, BO_Comma,
    (ImplicitCastExpr (Fixture.expr 9 32 33 32) Fixture.ImmediateCall.calleeRef),
    Fixture.ImmediateCall.lambda, [].
  split; [constructor | split; reflexivity].
Qed.

(** * Further properties *)

(** ** Insertion point *)

(** X1.  The resolver returns the statement [IP] exactly when [IP] is the
    statement of the first node on the path from the candidate upwards
    whose parent is a compound statement that does not start inside a macro
    expansion, and the loop may pass every node from the candidate up to
    that node: extraction out of it is allowed and no referenced entity is
    declared inside it. *)
Theorem insertion_point_iff :
  forall (SM : SourceManager) (Decls : list Decl) (X : Node) (IP : Stmt),
    computeInsertionPoint SM Decls X = Some IP <->
    exists Pre A B Above,
      This X :: Up X = Pre ++ A :: B :: Above /\
      Forall (fun T => isBlockNode T = false) (tl (Pre ++ [A])) /\
      isBlockNode B = true /\
      Forall (fun N => mayPass SM Decls N = true)
        (firstn (S (List.length Pre)) (ancestorsOrSelf X)) /\
      get_Stmt (nodeAST A) = Some IP.
Proof.
  intros SM0 Decls X IP. unfold computeInsertionPoint, ancestorsOrSelf.
  apply insertionPointFrom_iff.
Qed.

Lemma insertion_point_iff_witness :
  computeInsertionPoint (Fixture.fileSM Fixture.Block.buffer)
    [Fixture.Block.y] Fixture.Block.candidate = Some Fixture.Block.call.
Proof.
  apply (proj2 (insertion_point_iff (Fixture.fileSM Fixture.Block.buffer)
                  [Fixture.Block.y] Fixture.Block.candidate Fixture.Block.call)).
  exists [Fixture.Block.sumNode], Fixture.Block.callNode,
    Fixture.Block.blockNode, [Fixture.Block.funcNode].
  split; [reflexivity|].
  split; [simpl; constructor; [reflexivity | constructor]|].
  split; [reflexivity|].
  split; [|reflexivity].
  simpl. constructor; [reflexivity|]. constructor; [reflexivity | constructor].
Defined.

Lemma insertionPointFrom_scope_safe (SM : SourceManager) (Decls : list Decl)
    (IP : Stmt) :
  forall (Anc : list TreeNode) (Cur : TreeNode),
    insertionPointFrom SM Decls Cur Anc = Some IP ->
    exprIsValidOutside SM Decls IP = true.
Proof.
  induction Anc as [|P Above IH]; intro Cur; [discriminate|].
  rewrite insertionPointFrom_step.
  destruct (mayPass SM Decls (mkNode Cur (P :: Above))) eqn:HM; [|discriminate].
  destruct (isBlockNode P); [|apply IH].
  intro H. unfold mayPass, ASTNode in HM. cbn [This] in HM. rewrite H in HM.
  apply andb_true_iff in HM. apply HM.
Qed.

(** X2.  When the search returns a statement, no declaration of the list
    of declarations it was given has a valid declaration range inside that
    statement.  For a context that the constructor built, the list is the
    one the collector returned for the expression: no collected declaration
    lies inside the insertion point of the context.  (What the collector
    leaves out, such as references inside the body of a closure literal, is
    not in the list and nothing is stated of it.) *)
Theorem insertion_point_scope_safe :
  (forall (SM : SourceManager) (Decls : list Decl) (X : Node) (IP : Stmt),
      computeInsertionPoint SM Decls X = Some IP ->
      forall D, In D Decls -> declInside SM D IP = false) /\
  (forall (N : Node) (SM : SourceManager) (Ctx : ASTContext)
          (EC : ExtractionContext) (IP : Stmt),
      newExtractionContext N SM Ctx = Some EC ->
      InsertionPoint EC = Some IP ->
      ReferencedDecls EC = computeReferencedDecls (Expr EC) /\
      forall D, In D (computeReferencedDecls (Expr EC)) ->
                declInside SM D IP = false).
Proof.
  assert (General :
            forall (SM : SourceManager) (Decls : list Decl) (X : Node) (IP : Stmt),
              computeInsertionPoint SM Decls X = Some IP ->
              forall D, In D Decls -> declInside SM D IP = false).
  { intros SM0 Decls X IP H D HD.
    apply insertionPointFrom_scope_safe in H.
    destruct (declInside SM0 D IP) eqn:HI; [|reflexivity].
    rewrite (exprIsValidOutside_false SM0 Decls IP D HD HI) in H.
    discriminate H. }
  split; [exact General|].
  intros N SM0 Ctx0 EC IP HEC HIP. unfold newExtractionContext in HEC.
  destruct (get_Expr (ASTNode N)) as [E|]; [|discriminate HEC].
  injection HEC as <-. cbn [InsertionPoint Expr ReferencedDecls] in *.
  split; [reflexivity|].
  exact (General SM0 (computeReferencedDecls E) N IP HIP).
Qed.

Lemma insertion_point_scope_safe_witness :
  declInside (Fixture.fileSM Fixture.Block.buffer) Fixture.Block.y
    Fixture.Block.call = false.
Proof.
  apply (proj2 (proj2 insertion_point_scope_safe Fixture.Block.candidate
                  (Fixture.fileSM Fixture.Block.buffer) Fixture.cxx17
                  Fixture.Block.target Fixture.Block.call eq_refl eq_refl)
           Fixture.Block.y).
  left. reflexivity.
Defined.

Lemma exprIsValidOutside_incl (SM : SourceManager) (Decls Decls' : list Decl)
    (Scope : Stmt) :
  incl Decls' Decls ->
  exprIsValidOutside SM Decls Scope = true ->
  exprIsValidOutside SM Decls' Scope = true.
Proof.
  intros HI H. unfold exprIsValidOutside in *.
  apply negb_true_iff. apply negb_true_iff in H.
  destruct (existsb _ Decls') eqn:HE; [|reflexivity].
  apply existsb_exists in HE. destruct HE as (D & HD & HP).
  assert (HX : existsb
                 (fun ReferencedDecl =>
                    isValid (declBeginLoc ReferencedDecl) &&
                    isPointWithin SM (declBeginLoc ReferencedDecl)
                      (getBeginLoc Scope) (getEndLoc Scope) &&
                    isPointWithin SM (declEndLoc ReferencedDecl)
                      (getBeginLoc Scope) (getEndLoc Scope)) Decls = true).
  { apply existsb_exists. exists D. split; [apply HI, HD | exact HP]. }
  congruence.
Qed.

(** X3.  An insertion point found for a list of referenced entities is
    also found, and is the same, for any list with fewer entities. *)
Theorem insertion_point_fewer_references :
  forall (SM : SourceManager) (Decls Decls' : list Decl) (X : Node) (IP : Stmt),
    incl Decls' Decls ->
    computeInsertionPoint SM Decls X = Some IP ->
    computeInsertionPoint SM Decls' X = Some IP.
Proof.
  intros SM0 Decls Decls' [Cur Anc] IP HI. unfold computeInsertionPoint; simpl.
  revert Cur. induction Anc as [|P Above IH]; intro Cur; [discriminate|].
  rewrite !insertionPointFrom_step.
  destruct (mayPass SM0 Decls (mkNode Cur (P :: Above))) eqn:HM; [|discriminate].
  assert (HM' : mayPass SM0 Decls' (mkNode Cur (P :: Above)) = true).
  { unfold mayPass in *. apply andb_true_iff in HM. destruct HM as [HC HV].
    rewrite HC. simpl.
    destruct (get_Stmt (ASTNode (mkNode Cur (P :: Above)))); [|reflexivity].
    apply (exprIsValidOutside_incl SM0 Decls Decls' _ HI HV). }
  rewrite HM'. destruct (isBlockNode P); [auto | apply IH].
Qed.

Lemma insertion_point_fewer_references_witness :
  computeInsertionPoint (Fixture.fileSM Fixture.Block.buffer) []
    Fixture.Block.candidate = Some Fixture.Block.call.
Proof.
  apply (insertion_point_fewer_references (Fixture.fileSM Fixture.Block.buffer)
           [Fixture.Block.y] [] Fixture.Block.candidate Fixture.Block.call).
  - intros D [].
  - reflexivity.
Defined.




(** ** Variable type *)

(** X5.  With C++11 the variable type is [auto], so a candidate is extractable
    exactly when an insertion point was found.  Without C++11 the type of
    the expression is taken, less one outer nullability attribute; an
    expression of pseudo-object type that is no property reference, or is
    one that messages the setter, has no variable type and is never
    extractable; a property reference that messages the getter takes the
    type of the property or of the getter. *)
Theorem variable_type_rules :
  forall (N : Node) (SM : SourceManager) (Ctx : ASTContext) (E : Stmt)
         (EC : ExtractionContext),
    get_Expr (ASTNode N) = Some E ->
    newExtractionContext N SM Ctx = Some EC ->
    (CPlusPlus11 (getLangOpts Ctx) = true ->
     VarType EC = Some AutoType /\
     isExtractable EC = isSome (InsertionPoint EC)) /\
    (CPlusPlus11 (getLangOpts Ctx) = false ->
     hasPlaceholderType E BK_PseudoObject = false ->
     VarType EC = stripOuterNullability (getType E)) /\
    (CPlusPlus11 (getLangOpts Ctx) = false ->
     hasPlaceholderType E BK_PseudoObject = true ->
     (forall i PR Sub,
         E = ObjCPropertyRefExpr i PR Sub -> isMessagingSetter PR = true) ->
     VarType EC = None /\ isExtractable EC = false) /\
    (forall i PR Sub,
        CPlusPlus11 (getLangOpts Ctx) = false ->
        hasPlaceholderType E BK_PseudoObject = true ->
        E = ObjCPropertyRefExpr i PR Sub ->
        isMessagingSetter PR = false -> isMessagingGetter PR = true ->
        VarType EC =
          stripOuterNullability
            (if isExplicitProperty PR then ExplicitPropertyType PR
             else ImplicitGetterReturnType PR)).
Proof.
  intros N SM0 Ctx0 E EC HE HEC. unfold newExtractionContext in HEC.
  rewrite HE in HEC. injection HEC as <-. unfold isExtractable. simpl.
  unfold computeVariableType. split; [|split; [|split]].
  - intros ->. simpl. split; [reflexivity|].
    destruct (isSome _); reflexivity.
  - intros -> ->. destruct (getType E); reflexivity.
  - intros -> -> HPR.
    destruct E; try (split; reflexivity).
    rewrite (HPR i PR Sub eq_refl). split; reflexivity.
  - intros i PR Sub -> -> -> -> ->.
    destruct (isExplicitProperty PR);
      [destruct (ExplicitPropertyType PR) | destruct (ImplicitGetterReturnType PR)];
      reflexivity.
Qed.

Lemma variable_type_rules_witness :
  (CPlusPlus11 (getLangOpts Fixture.cxx17) = true ->
   VarType Fixture.Block.target = Some AutoType /\
   isExtractable Fixture.Block.target =
     isSome (InsertionPoint Fixture.Block.target)) /\
  (CPlusPlus11 (getLangOpts Fixture.cxx17) = false ->
   hasPlaceholderType Fixture.Block.sum BK_PseudoObject = false ->
   VarType Fixture.Block.target = stripOuterNullability (getType Fixture.Block.sum)) /\
  (CPlusPlus11 (getLangOpts Fixture.cxx17) = false ->
   hasPlaceholderType Fixture.Block.sum BK_PseudoObject = true ->
   (forall i PR Sub,
       Fixture.Block.sum = ObjCPropertyRefExpr i PR Sub ->
       isMessagingSetter PR = true) ->
   VarType Fixture.Block.target = None /\
   isExtractable Fixture.Block.target = false) /\
  (forall i PR Sub,
      CPlusPlus11 (getLangOpts Fixture.cxx17) = false ->
      hasPlaceholderType Fixture.Block.sum BK_PseudoObject = true ->
      Fixture.Block.sum = ObjCPropertyRefExpr i PR Sub ->
      isMessagingSetter PR = false -> isMessagingGetter PR = true ->
      VarType Fixture.Block.target =
        stripOuterNullability
          (if isExplicitProperty PR then ExplicitPropertyType PR
           else ImplicitGetterReturnType PR)).
Proof.
  apply (variable_type_rules Fixture.Block.candidate
           (Fixture.fileSM Fixture.Block.buffer) Fixture.cxx17
           Fixture.Block.sum Fixture.Block.target); reflexivity.
Defined.

(** ** Eligibility and the chosen node *)

Lemma Ptr_eqb_eq (A B : Ptr) : Ptr_eqb A B = true <-> A = B.
Proof.
  destruct A as [a|], B as [b|]; simpl; try rewrite Nat.eqb_eq;
    split; intro H; try discriminate H; try reflexivity; congruence.
Qed.

Lemma getCallExpr_parent (N Call : Node) :
  getCallExpr N = Some Call ->
  Parent (outerImplicit N) = Some Call /\
  exists CE Callee,
    get_Expr (ASTNode Call) = Some CE /\
    ((exists i Args, CE = CallExpr i Callee Args) \/
     (exists i b k Args, CE = CXXOperatorCallExpr i b k Callee Args)) /\
    addrOf (Some Callee) = addrOf (get_Expr (ASTNode (outerImplicit N))).
Proof.
  unfold getCallExpr.
  destruct (Parent (outerImplicit N)) as [MaybeCall|]; [|discriminate].
  destruct (get_Expr (ASTNode MaybeCall)) as [CE|] eqn:HCE; [|discriminate].
  destruct CE; try discriminate;
    (destruct (ptr_eqb (Some CE)
                 (get_Expr (ASTNode (outerImplicit N)))) eqn:HP;
     simpl; [|discriminate]);
    intro H; injection H as <-; (split; [reflexivity|]);
    eexists; exists CE; (split; [exact HCE|]);
    (split; [|apply Ptr_eqb_eq; exact HP]); [right | left]; eauto.
Qed.

Lemma eligible_inv (N : Node) :
  eligibleForExtraction N = true ->
  exists E Ty P,
    get_Expr (ASTNode N) = Some E /\
    getType E = Some Ty /\ isVoidTy Ty = false /\
    isa_DeclRefExpr E = false /\
    (forall Op, parse N = Some Op -> isAssignmentOp (Kind Op) = false) /\
    Parent (outerImplicit N) = Some P /\
    childExprIsDisallowedStmt (get_Stmt (ASTNode P))
      (get_Expr (ASTNode (outerImplicit N))) = false /\
    (isa_LambdaExpr E = true -> Selected N = Complete).
Proof.
  unfold eligibleForExtraction.
  destruct (get_Expr (ASTNode N)) as [E|]; [|discriminate].
  destruct (getType E) as [Ty|] eqn:HTy; [|discriminate].
  destruct (isVoidTy Ty) eqn:HV; [discriminate|].
  destruct (isa_DeclRefExpr E) eqn:HD; [discriminate|].
  match goal with
  | |- (if ?c then _ else _) = _ -> _ => destruct c; [discriminate|]
  end.
  destruct (parse N) as [Op|] eqn:HP; cbn [isSome].
  - destruct (isAssignmentOp (Kind Op)) eqn:HA; [discriminate|].
    destruct (Parent (outerImplicit N)) as [P|] eqn:HPar; [|discriminate].
    destruct (childExprIsDisallowedStmt _ _) eqn:HC; [discriminate|].
    match goal with
    | |- (if ?c then _ else _) = _ -> _ => destruct c; [discriminate|]
    end.
    intro H. exists E, Ty, P.
    do 4 (split; [first [reflexivity | assumption]|]).
    split; [intros Op' HO; injection HO as <-; exact HA|].
    do 2 (split; [first [reflexivity | assumption]|]).
    intro HL. rewrite HL in H. destruct (Selected N); try discriminate H.
    reflexivity.
  - destruct (Parent (outerImplicit N)) as [P|] eqn:HPar; [|discriminate].
    destruct (childExprIsDisallowedStmt _ _) eqn:HC; [discriminate|].
    match goal with
    | |- (if ?c then _ else _) = _ -> _ => destruct c; [discriminate|]
    end.
    intro H. exists E, Ty, P.
    do 4 (split; [first [reflexivity | assumption]|]).
    split; [intros Op' HO; discriminate HO|].
    do 2 (split; [first [reflexivity | assumption]|]).
    intro HL. rewrite HL in H. destruct (Selected N); try discriminate H.
    reflexivity.
Qed.

(** X6.  The node that [computeExtractedExpr] returns is the selected node
    or, for a selected name or member reference that is the callee of a
    call, that call, which is then the parent of the wrapped name.  It holds
    an expression of a type that is neither null nor void, it is no bare
    name reference and no assignment, built-in or overloaded, its wrapping
    in implicit parents has a parent, and if it is a closure literal it
    is completely selected. *)
Theorem extracted_expr_invariants :
  forall (X : option Node) (T : Node),
    computeExtractedExpr X = Some T ->
    exists N E Ty P,
      X = Some N /\
      T = chosenCandidate N /\
      (T = N \/
       (getCallExpr N = Some T /\ Parent (outerImplicit N) = Some T /\
        exists SelectedExpr,
          get_Expr (ASTNode N) = Some SelectedExpr /\
          isa_DeclRefExpr SelectedExpr || isa_MemberExpr SelectedExpr = true)) /\
      get_Expr (ASTNode T) = Some E /\
      getType E = Some Ty /\ isVoidTy Ty = false /\
      isa_DeclRefExpr E = false /\
      (forall Op, parse T = Some Op -> isAssignmentOp (Kind Op) = false) /\
      Parent (outerImplicit T) = Some P /\
      (isa_LambdaExpr E = true -> Selected T = Complete).
Proof.
  intros X T H.
  assert (HEl := computeExtractedExpr_eligible X T H).
  destruct (eligible_inv T HEl) as (E & Ty & P & HE & HT & HV & HD & HA & HP & _ & HL).
  unfold computeExtractedExpr in H. destruct X as [N|]; [|discriminate H].
  exists N, E, Ty, P. split; [reflexivity|].
  assert (HT' : T = chosenCandidate N).
  { unfold chosenCandidate.
    destruct (get_Expr (ASTNode N)) as [SelectedExpr|]; [|discriminate H].
    match type of H with
    | (if ?c then _ else _) = _ => destruct c; [discriminate H|]
    end.
    match type of H with
    | (if ?c then _ else _) = _ => destruct c; [discriminate H|]
    end.
    injection H as <-. reflexivity. }
  split; [exact HT'|]. split.
  - rewrite HT'. unfold chosenCandidate.
    destruct (get_Expr (ASTNode N)) as [SelectedExpr|]; [|left; reflexivity].
    destruct (isa_DeclRefExpr SelectedExpr || isa_MemberExpr SelectedExpr) eqn:HK;
      [|left; reflexivity].
    destruct (getCallExpr N) as [Call|] eqn:HC; [|left; reflexivity].
    right. split; [reflexivity|].
    split; [apply (getCallExpr_parent N Call HC)|].
    exists SelectedExpr. split; [reflexivity | exact HK].
  - repeat split; assumption.
Qed.

(** X7.  An eligible candidate that is the whole right-hand side of a
    built-in assignment -- its parent, above implicit wrappers, is a
    [BinaryOperator] node with an assignment opcode -- is itself a binary
    operator, built-in or overloaded, whose subtree is not completely
    selected.  The same holds of an eligible candidate that is the whole
    initializer of a variable that is no init-capture, unless the candidate
    is a completely selected closure literal.  (A call of an overloaded
    [operator=] is no [BinaryOperator] node; nothing is stated of it.) *)
Theorem whole_rhs_needs_partial_chain :
  forall (N P : Node),
    eligibleForExtraction N = true ->
    Parent (outerImplicit N) = Some P ->
    (forall i Opcode LHS RHS,
        get_Stmt (ASTNode P) = Some (BinaryOperator i Opcode LHS RHS) ->
        isAssignmentOp Opcode = true ->
        addrOf (Some RHS) = addrOf (get_Expr (ASTNode (outerImplicit N))) ->
        parse N <> None /\ IsFullySelected (This N) = false) /\
    (forall D,
        get_VarDecl (ASTNode P) = Some D ->
        InitCapture D = false ->
        Init D = addrOf (get_Expr (ASTNode (outerImplicit N))) ->
        (exists E, get_Expr (ASTNode N) = Some E /\ isa_LambdaExpr E = true /\
                   Selected N = Complete) \/
        (parse N <> None /\ IsFullySelected (This N) = false)).
Proof.
  intros N P HEl HP. unfold eligibleForExtraction in HEl. rewrite HP in HEl.
  destruct (get_Expr (ASTNode N)) as [E|]; [|discriminate HEl].
  repeat match type of HEl with
         | (if ?c then false else _) = true =>
             destruct c eqn:?; [discriminate HEl|]
         end.
  split.
  - intros i Opcode LHS RHS HS HA HR. rewrite HS, HA, HR in *.
    assert (HX : Ptr_eqb (addrOf (get_Expr (ASTNode (outerImplicit N))))
                   (addrOf (get_Expr (ASTNode (outerImplicit N)))) = true)
      by (apply Ptr_eqb_eq; reflexivity).
    match goal with
    | H : (_ && _) = false |- _ => rewrite HX in H; simpl in H
    end.
    destruct (parse N); simpl in *; [|discriminate].
    split; [discriminate | assumption].
  - intros D HD HI HInit.
    destruct (isa_LambdaExpr E) eqn:HL.
    + left. exists E. split; [reflexivity|]. split; [exact HL|].
      destruct (Selected N); try discriminate HEl. reflexivity.
    + right. rewrite HD, HI, HInit in HEl.
      assert (HX : Ptr_eqb (addrOf (get_Expr (ASTNode (outerImplicit N))))
                     (addrOf (get_Expr (ASTNode (outerImplicit N)))) = true)
        by (apply Ptr_eqb_eq; reflexivity).
      rewrite HX in HEl. simpl in HEl.
      destruct (parse N); simpl in *; [|discriminate HEl].
      split; [discriminate|].
      destruct (IsFullySelected (This N)); [discriminate HEl | reflexivity].
Qed.

(** X8.  A closure literal of non-void type whose parent, after wrapping, is
    a variable declaration is eligible exactly when it is completely
    selected: the rule about whole initializers is not applied to it. *)
Theorem lambda_initializer_eligible :
  forall (N P : Node) (E : Stmt) (Ty : ClangType) (D : Decl),
    get_Expr (ASTNode N) = Some E ->
    isa_LambdaExpr E = true ->
    getType E = Some Ty -> isVoidTy Ty = false ->
    Parent (outerImplicit N) = Some P ->
    get_VarDecl (ASTNode P) = Some D ->
    eligibleForExtraction N = SelectionKind_eqb (Selected N) Complete.
Proof.
  intros N P E Ty D HE HL HT HV HP HD. unfold eligibleForExtraction.
  rewrite HE, HT, HV, HP.
  destruct E; try discriminate HL. simpl.
  assert (HPar : parse N = None).
  { unfold parse. rewrite HE. reflexivity. }
  rewrite HPar. simpl.
  destruct (ASTNode P) as [St|D'|R]; try discriminate HD. reflexivity.
Qed.

Lemma extracted_expr_invariants_witness :
  exists N E Ty P,
    Some Fixture.CalleeName.selected = Some N /\
    Fixture.CalleeName.call = chosenCandidate N /\
    (Fixture.CalleeName.call = N \/
     (getCallExpr N = Some Fixture.CalleeName.call /\
      Parent (outerImplicit N) = Some Fixture.CalleeName.call /\
      exists SelectedExpr,
        get_Expr (ASTNode N) = Some SelectedExpr /\
        isa_DeclRefExpr SelectedExpr || isa_MemberExpr SelectedExpr = true)) /\
    get_Expr (ASTNode Fixture.CalleeName.call) = Some E /\
    getType E = Some Ty /\ isVoidTy Ty = false /\
    isa_DeclRefExpr E = false /\
    (forall Op, parse Fixture.CalleeName.call = Some Op ->
                isAssignmentOp (Kind Op) = false) /\
    Parent (outerImplicit Fixture.CalleeName.call) = Some P /\
    (isa_LambdaExpr E = true -> Selected Fixture.CalleeName.call = Complete).
Proof.
  apply (extracted_expr_invariants (Some Fixture.CalleeName.selected)
           Fixture.CalleeName.call).
  reflexivity.
Defined.

Lemma whole_rhs_needs_partial_chain_witness :
  parse Fixture.AssignChain.candidate <> None /\
  IsFullySelected (This Fixture.AssignChain.candidate) = false.
Proof.
  apply (proj1 (whole_rhs_needs_partial_chain Fixture.AssignChain.candidate
                  Fixture.AssignChain.parent eq_refl eq_refl)
           (Fixture.expr 7 2 14 4) BO_Assign
           (DeclRefExpr (Fixture.expr 1 2 2 2) Fixture.AssignChain.x)
           Fixture.AssignChain.abc); reflexivity.
Defined.

Lemma lambda_initializer_eligible_witness :
  eligibleForExtraction
    (mkNode (mkTreeNode (DTN_Stmt Fixture.DefaultArgument.lambda) Complete [])
       [Fixture.DefaultArgument.varNode; Fixture.DefaultArgument.declNode;
        Fixture.DefaultArgument.blockNode]) = true.
Proof.
  apply (lambda_initializer_eligible
           (mkNode (mkTreeNode (DTN_Stmt Fixture.DefaultArgument.lambda) Complete [])
              [Fixture.DefaultArgument.varNode; Fixture.DefaultArgument.declNode;
               Fixture.DefaultArgument.blockNode])
           (mkNode Fixture.DefaultArgument.varNode
              [Fixture.DefaultArgument.declNode; Fixture.DefaultArgument.blockNode])
           Fixture.DefaultArgument.lambda (BuiltinType BK_Int)
           Fixture.DefaultArgument.l); reflexivity.
Defined.

(** ** The tweak *)

(** X9.  Running [prepare] again on the same inputs, with the target the
    first run left, gives the same answer and leaves the same target. *)
Theorem prepare_idempotent :
  forall (Inputs : Selection) (Target0 Target : option ExtractionContext)
         (Answer : bool),
    prepare Inputs Target0 = Some (Answer, Target) ->
    prepare Inputs Target = Some (Answer, Target).
Proof.
  intros Inputs Target0 Target Answer. unfold prepare.
  destruct (Nat.eqb (SelectionBegin Inputs) (SelectionEnd Inputs)).
  - intro H; injection H as <- <-. reflexivity.
  - destruct (computeExtractedExpr (commonAncestor Inputs)) as [N|].
    + destruct (newExtractionContext N (getSourceManager Inputs)
                  (getASTContext Inputs)); [|discriminate].
      intro H; injection H as <- <-. reflexivity.
    + intro H; injection H as <- <-. reflexivity.
Qed.

Lemma prepare_idempotent_witness :
  prepare Fixture.Block.inputs (Some Fixture.Block.target) =
  Some (true, Some Fixture.Block.target).
Proof.
  apply (prepare_idempotent Fixture.Block.inputs None
           (Some Fixture.Block.target) true).
  reflexivity.
Defined.

Section ApplySafety.

Variable printType : QualType -> Node -> string -> string.
Variable Error : Type.
Variable add : list Replacement -> Replacement -> Error + list Replacement.

(** X10.  [prepare] always has a result: it builds a context only on a
    node that holds an expression.  When a fresh tweak answers [true], the
    selection is not empty and the target it keeps is the context of the node
    [computeExtractedExpr] chose, with an insertion point, a variable type
    and a parent of the wrapped node: what [apply] reads without a test is
    there, and [apply] can only lack a result where the extraction range or
    the file range of the insertion point does. *)
Theorem prepare_makes_apply_safe :
  forall (Inputs : Selection) (Target0 : option ExtractionContext),
    prepare Inputs Target0 <> None /\
    forall (Target : option ExtractionContext),
      prepare Inputs None = Some (true, Target) ->
      exists EC E P IP,
        Target = Some EC /\
        SelectionBegin Inputs <> SelectionEnd Inputs /\
        computeExtractedExpr (commonAncestor Inputs) = Some (ExprNode EC) /\
        get_Expr (ASTNode (ExprNode EC)) = Some E /\ Expr EC = E /\
        ReferencedDecls EC = computeReferencedDecls E /\
        Parent (outerImplicit (getExprNode EC)) = Some P /\
        InsertionPoint EC = Some IP /\
        isNull (VarType EC) = false /\
        (apply printType add Inputs Target = None ->
         getExtractionChars EC = None \/
         toHalfOpenFileRange (SM EC) (getLangOpts (Ctx EC)) (getSourceRange IP)
           = None).
Proof.
  intros Inputs Target0. split; [apply prepare_defined|].
  intros Target H.
  assert (HT : exists EC, Target = Some EC).
  { unfold prepare in H.
    destruct (Nat.eqb (SelectionBegin Inputs) (SelectionEnd Inputs));
      [discriminate H|].
    destruct (computeExtractedExpr (commonAncestor Inputs)) as [N|];
      [|discriminate H].
    destruct (newExtractionContext N (getSourceManager Inputs)
                (getASTContext Inputs)) as [EC|]; [|discriminate H].
    injection H as _ <-. eauto. }
  destruct HT as [EC ->].
  destruct (prepare_true Inputs EC H) as ((P & HP) & (IP & HIP) & HX).
  unfold prepare in H.
  destruct (Nat.eqb (SelectionBegin Inputs) (SelectionEnd Inputs)) eqn:HSel;
    [discriminate H|].
  destruct (computeExtractedExpr (commonAncestor Inputs)) as [N|] eqn:HN;
    [|discriminate H].
  destruct (newExtractionContext N (getSourceManager Inputs)
              (getASTContext Inputs)) as [EC'|] eqn:HEC; [|discriminate H].
  injection H as _ ->.
  unfold newExtractionContext in HEC.
  destruct (get_Expr (ASTNode N)) as [E|] eqn:HE; [|discriminate HEC].
  exists EC, E, P, IP. split; [reflexivity|].
  split; [apply Nat.eqb_neq, HSel|].
  assert (HNode : ExprNode EC = N) by (injection HEC as <-; reflexivity).
  split; [rewrite HNode; reflexivity|].
  split; [rewrite HNode; exact HE|].
  split; [injection HEC as <-; reflexivity|].
  split; [injection HEC as <-; reflexivity|].
  split; [exact HP|]. split; [exact HIP|].
  split.
  - unfold isExtractable in HX. injection HEC as <-. simpl in *.
    destruct (isNull (computeVariableType E (getASTContext Inputs))) eqn:HNull.
    + discriminate HX.
    + rewrite isNull_stripOuterNullability. exact HNull.
  - intro HA. unfold apply in HA.
    destruct (getExtractionChars EC) as [Chars|]; [|left; reflexivity].
    rewrite HP in HA. unfold insertDeclaration in HA. rewrite HIP in HA.
    destruct (toHalfOpenFileRange (SM EC) (getLangOpts (Ctx EC))
                (getSourceRange IP)); [|right; reflexivity].
    exfalso.
    destruct (add [] _) as [Err|R1]; [discriminate HA|].
    destruct (add R1 _); discriminate HA.
Qed.

End ApplySafety.

Lemma prepare_makes_apply_safe_witness :
  exists EC E P IP,
    Some Fixture.Block.target = Some EC /\
    SelectionBegin Fixture.Block.inputs <> SelectionEnd Fixture.Block.inputs /\
    computeExtractedExpr (commonAncestor Fixture.Block.inputs) =
      Some (ExprNode EC) /\
    get_Expr (ASTNode (ExprNode EC)) = Some E /\ Expr EC = E /\
    ReferencedDecls EC = computeReferencedDecls E /\
    Parent (outerImplicit (getExprNode EC)) = Some P /\
    InsertionPoint EC = Some IP /\
    isNull (VarType EC) = false /\
    (apply Fixture.printAuto addReplacement Fixture.Block.inputs
       (Some Fixture.Block.target) = None ->
     getExtractionChars EC = None \/
     toHalfOpenFileRange (SM EC) (getLangOpts (Ctx EC)) (getSourceRange IP)
       = None).
Proof.
  apply (proj2 (prepare_makes_apply_safe Fixture.printAuto ReplacementError
                  addReplacement Fixture.Block.inputs None)
           (Some Fixture.Block.target)).
  reflexivity.
Defined.

(** ** Extraction range *)

(** X11.  When the candidate, less its implicit wrappers, is no binary
    operator, or its operator is not associative, or an operand lies in
    another file or macro expansion than the operator, or not exactly two
    operands are selected, [getBinaryOperatorRange] returns the invalid range
    and the extraction range is the file range of the whole expression. *)
Theorem whole_expression_fallback :
  forall (EC : ExtractionContext),
    (parse (ignoreImplicit (ExprNode EC)) = None \/
     exists Op,
       parse (ignoreImplicit (ExprNode EC)) = Some Op /\
       (associative Op = false \/
        crossesMacroBoundary (SM EC) Op = Some true \/
        (crossesMacroBoundary (SM EC) Op = Some false /\
         List.length (SelectedOperands Op) <> 2))) ->
    getBinaryOperatorRange (ExprNode EC) (SM EC) (getLangOpts (Ctx EC)) =
      Some NoRange /\
    getExtractionChars EC =
      toHalfOpenFileRange (SM EC) (getLangOpts (Ctx EC)) (getSourceRange (Expr EC)).
Proof.
  intros EC H.
  assert (HR : getBinaryOperatorRange (ExprNode EC) (SM EC) (getLangOpts (Ctx EC))
               = Some NoRange).
  { unfold getBinaryOperatorRange.
    destruct H as [->|(Op & -> & [HA|[HC|[HC HL]]])]; [reflexivity| | |].
    - rewrite HA. reflexivity.
    - destruct (associative Op); [|reflexivity]. simpl. rewrite HC. reflexivity.
    - destruct (associative Op); [|reflexivity]. simpl. rewrite HC.
      destruct (SelectedOperands Op) as [|a [|b [|c l]]]; try reflexivity.
      contradiction HL; reflexivity. }
  split; [exact HR|]. unfold getExtractionChars. rewrite HR. reflexivity.
Qed.

(** X12.  Operators are not mixed: when the left selected operand of an
    associative operator is no binary operator or one of another kind, the
    extraction range starts where that whole operand starts, however little
    of it is selected, and ends where the right operand ends. *)
Theorem other_operator_stops_descent :
  forall (N Start End : Node) (SM : SourceManager) (LangOpts : LangOptions)
         (Op : t) (RS RE : SourceRange),
    parse (ignoreImplicit N) = Some Op ->
    associative Op = true ->
    crossesMacroBoundary SM Op = Some false ->
    SelectedOperands Op = [Start; End] ->
    (parse (ignoreImplicit Start) = None \/
     exists Inner,
       parse (ignoreImplicit Start) = Some Inner /\ Kind Inner <> Kind Op) ->
    toHalfOpenFileRange SM LangOpts (nodeSourceRange (ASTNode Start)) = Some RS ->
    toHalfOpenFileRange SM LangOpts (nodeSourceRange (ASTNode End)) = Some RE ->
    getBinaryOperatorRange N SM LangOpts =
    Some (mkRange (getBegin RS) (getEnd RE)).
Proof.
  intros N Start End SM0 LangOpts Op RS RE HP HA HC HO HS HRS HRE.
  unfold getBinaryOperatorRange. rewrite HP, HA, HC, HO. simpl.
  assert (HStep : forall Steps,
             pushDownStart (S Steps) SM0 (Kind Op) Start = Stopped Start).
  { intro Steps. simpl. destruct HS as [->|(Inner & -> & HK)]; [reflexivity|].
    destruct (BinaryOperatorKind_eqb (Kind Inner) (Kind Op)) eqn:HE;
      [|reflexivity].
    apply BinaryOperatorKind_eqb_eq in HE. contradiction. }
  destruct (height (This N)) as [|Steps] eqn:HH.
  - pose proof (height_pos (This N)). lia.
  - rewrite HStep, HRS, HRE. reflexivity.
Qed.

Lemma whole_expression_fallback_witness :
  getBinaryOperatorRange (ExprNode Fixture.Subtraction.target)
    (SM Fixture.Subtraction.target)
    (getLangOpts (Ctx Fixture.Subtraction.target)) = Some NoRange /\
  getExtractionChars Fixture.Subtraction.target =
    toHalfOpenFileRange (SM Fixture.Subtraction.target)
      (getLangOpts (Ctx Fixture.Subtraction.target))
      (getSourceRange (Expr Fixture.Subtraction.target)).
Proof.
  apply (whole_expression_fallback Fixture.Subtraction.target).
  right.
  exists {| Kind := BO_Sub; ExprLoc := FileLoc 4;
            SelectedOperands := Children Fixture.Subtraction.candidate |}.
  split; [reflexivity | left; reflexivity].
Defined.

Lemma other_operator_stops_descent_witness :
  getBinaryOperatorRange Fixture.MixedChain.candidate
    (Fixture.fileSM EmptyString) {| CPlusPlus11 := true |} =
  Some (mkRange (FileLoc 2) (FileLoc 11)).
Proof.
  apply (other_operator_stops_descent Fixture.MixedChain.candidate
           Fixture.MixedChain.left Fixture.MixedChain.right
           (Fixture.fileSM EmptyString) {| CPlusPlus11 := true |}
           {| Kind := BO_Add; ExprLoc := FileLoc 8;
              SelectedOperands := Children Fixture.MixedChain.candidate |}
           (mkRange (FileLoc 2) (FileLoc 7))
           (mkRange (FileLoc 10) (FileLoc 11))); try reflexivity.
  right.
  exists {| Kind := BO_Mul; ExprLoc := FileLoc 4;
            SelectedOperands := Children Fixture.MixedChain.left |}.
  split; [reflexivity | discriminate].
Defined.

(** ** Edits, collector, selection *)

Section Edits.
Variable printType : QualType -> Node -> string -> string.

(** X13.  The declaration edit is an insertion of length 0; the length of
    the substitution is the unsigned 32-bit difference of the offsets of the
    range's end and begin, which is their difference when they are in
    order.  The two edits overlap exactly when the insertion offset lies
    strictly inside the replaced range; an insertion at the begin of the
    range, as for an expression statement, does not overlap. *)
Theorem edit_geometry :
  forall (EC : ExtractionContext) (DeclName VarName : string)
         (Chars : SourceRange) (AddSemicolon : bool) (D : Replacement),
    insertDeclaration printType EC DeclName Chars AddSemicolon = Some D ->
    let Sub := replaceWithVar EC Chars VarName in
    Length D = 0%Z /\
    (0 <= Length Sub < 2 ^ 32)%Z /\
    ((0 <= getFileOffset (SM EC) (getBegin Chars))%Z ->
     (getFileOffset (SM EC) (getBegin Chars) <=
      getFileOffset (SM EC) (getEnd Chars) < 2 ^ 32)%Z ->
     Length Sub = (getFileOffset (SM EC) (getEnd Chars) -
                 getFileOffset (SM EC) (getBegin Chars))%Z) /\
    (overlapsWith Sub D = true <->
     (Offset Sub < Offset D < Offset Sub + Length Sub)%Z) /\
    (Offset D = Offset Sub -> overlapsWith Sub D = false).
Proof.
  intros EC DeclName VarName Chars AddSemicolon D HD Sub.
  assert (HL : Length D = 0%Z).
  { unfold insertDeclaration in HD.
    destruct (InsertionPoint EC) as [IP|]; [|discriminate HD].
    destruct (toHalfOpenFileRange (SM EC) (getLangOpts (Ctx EC))
                (getSourceRange IP)); [|discriminate HD].
    injection HD as <-. reflexivity. }
  assert (HO : overlapsWith Sub D = true <->
               (Offset Sub < Offset D < Offset Sub + Length Sub)%Z).
  { unfold overlapsWith. rewrite HL, andb_true_iff, Z.gtb_lt, Z.ltb_lt. lia. }
  split; [exact HL|]. split.
  - unfold Sub, replaceWithVar, newReplacement; simpl.
    apply Z.mod_pos_bound. lia.
  - split.
    + intros H0 H. unfold Sub, replaceWithVar, newReplacement; simpl.
      apply Z.mod_small. lia.
    + split; [exact HO|]. intro HE.
      destruct (overlapsWith Sub D) eqn:HX; [|reflexivity].
      pose proof (proj1 HO eq_refl). lia.
Qed.
End Edits.

Lemma edit_geometry_witness :
  let Sub :=
    replaceWithVar Fixture.ExprStatement.target
      (mkRange (FileLoc 2) (FileLoc 7)) EmptyString in
  let D :=
    {| FilePath := 1; Offset := 2; Length := 0;
       ReplacementText := "auto placeholder = a + b" |} in
  Length D = 0%Z /\
  (0 <= Length Sub < 2 ^ 32)%Z /\
  ((0 <= getFileOffset (SM Fixture.ExprStatement.target) (FileLoc 2))%Z ->
   (getFileOffset (SM Fixture.ExprStatement.target) (FileLoc 2) <=
    getFileOffset (SM Fixture.ExprStatement.target) (FileLoc 7) < 2 ^ 32)%Z ->
   Length Sub =
     (getFileOffset (SM Fixture.ExprStatement.target) (FileLoc 7) -
      getFileOffset (SM Fixture.ExprStatement.target) (FileLoc 2))%Z) /\
  (overlapsWith Sub D = true <->
   (Offset Sub < Offset D < Offset Sub + Length Sub)%Z) /\
  (Offset D = Offset Sub -> overlapsWith Sub D = false).
Proof.
  apply (edit_geometry Fixture.printAuto Fixture.ExprStatement.target
           "placeholder" EmptyString (mkRange (FileLoc 2) (FileLoc 7)) false).
  reflexivity.
Defined.

Lemma visitHook_app (St : Stmt) (V : list Decl) :
  visitHook St V = V ++ visitHook St [].
Proof.
  destruct St; simpl; try (rewrite app_nil_r; reflexivity).
  unfold VisitDeclRefExpr. destruct (isa_CXXMethodDecl D && ParentIsLambda D);
    [rewrite app_nil_r|]; reflexivity.
Qed.

Lemma fold_children_app (L : list Stmt) :
  Forall (fun C => forall V, TraverseStmt C V = V ++ TraverseStmt C []) L ->
  forall V,
    fold_left (fun V C => TraverseStmt C V) L V =
    V ++ flat_map computeReferencedDecls L.
Proof.
  induction 1 as [|C L HC HL IH]; intro V; simpl.
  - rewrite app_nil_r. reflexivity.
  - rewrite IH, HC, <- app_assoc. reflexivity.
Qed.

Lemma TraverseStmt_app : forall (St : Stmt) (V : list Decl),
    TraverseStmt St V = V ++ TraverseStmt St [].
Proof.
  apply (Stmt_traversal_ind
           (fun St => forall V, TraverseStmt St V = V ++ TraverseStmt St [])).
  intros St HCh V.
  rewrite !TraverseStmt_children, !(fold_children_app _ HCh).
  rewrite (visitHook_app St V), <- app_assoc. reflexivity.
Qed.

(** X14.  The traversal only appends to the visitor, and the declarations
    collected for a statement are those of its own visitor hook followed by
    those collected for each statement the traversal descends into, in
    order. *)
Theorem collector_composes :
  forall (St : Stmt),
    (forall V : list Decl, TraverseStmt St V = V ++ computeReferencedDecls St) /\
    computeReferencedDecls St =
      visitHook St [] ++ flat_map computeReferencedDecls (traversedChildren St).
Proof.
  intro St. split; [intro V; apply TraverseStmt_app|].
  unfold computeReferencedDecls at 1. rewrite TraverseStmt_children.
  apply fold_children_app. apply Forall_forall. intros C _ V.
  apply TraverseStmt_app.
Qed.

Lemma collector_composes_witness :
  computeReferencedDecls Fixture.Block.sum = [Fixture.Block.y].
Proof.
  exact (proj2 (collector_composes Fixture.Block.sum)).
Defined.

Lemma Visits_trans (A B C : Stmt) : Visits A B -> Visits B C -> Visits A C.
Proof.
  induction 1 as [E|E Ch X HIn HV IH]; intro H; [exact H|].
  apply Visits_below with Ch; [exact HIn | apply IH, H].
Qed.

(** X15.  A variable that a closure literal captures is collected from every
    expression in which the closure literal is visited; what the collector
    returns for a closure literal does not depend on its body. *)
Theorem closure_captures_collected :
  (forall (E : Stmt) i caps req tps co body (cap : LambdaCapture Stmt) j (x : Decl),
      Visits E (LambdaExpr i caps req tps co body) ->
      In (cap, Some (DeclRefExpr j x)) caps ->
      IsInitCapture cap = false ->
      isClosureMethod x = false ->
      In x (computeReferencedDecls E)) /\
  (forall i caps req tps co body body',
      computeReferencedDecls (LambdaExpr i caps req tps co body) =
      computeReferencedDecls (LambdaExpr i caps req tps co body')).
Proof.
  split; [|reflexivity].
  intros E i caps req tps co body cap j x HV HIn HInit Hx.
  unfold computeReferencedDecls. apply (TraverseStmt_collects E [] x).
  right. exists j. split; [|exact Hx].
  apply Visits_trans with (LambdaExpr i caps req tps co body); [exact HV|].
  apply Visits_below with (DeclRefExpr j x); [|constructor].
  simpl. apply in_or_app. left.
  apply in_flat_map. exists (cap, Some (DeclRefExpr j x)).
  split; [exact HIn|]. unfold captureStmts; simpl. rewrite HInit.
  left. reflexivity.
Qed.

Lemma closure_captures_collected_witness :
  In Fixture.ImmediateCall.x (computeReferencedDecls Fixture.ImmediateCall.call).
Proof.
  apply (proj1 closure_captures_collected Fixture.ImmediateCall.call
           (Fixture.expr 6 13 31 13)
           [({| IsInitCapture := false;
                CapturedVar := {| TheDecl := Fixture.ImmediateCall.x;
                                  DeclStmts := [] |} |},
             Some (DeclRefExpr (Fixture.expr 7 14 14 14) Fixture.ImmediateCall.x))]
           None []
           (Some {| DeclaredReturnType := []; parameters := []; attrs := [] |})
           Fixture.ImmediateCall.body
           {| IsInitCapture := false;
              CapturedVar := {| TheDecl := Fixture.ImmediateCall.x;
                                DeclStmts := [] |} |}
           (Fixture.expr 7 14 14 14) Fixture.ImmediateCall.x).
  - apply Visits_below with Fixture.ImmediateCall.lambda;
      [right; left; reflexivity | constructor].
  - left. reflexivity.
  - reflexivity.
  - reflexivity.
Defined.

Section TreeInduction.
Variable P : TreeNode -> Prop.
Hypothesis step : forall T, Forall P (nodeChildren T) -> P T.

Lemma TreeNode_children_ind : forall T, P T.
Proof.
  fix IH 1. intros [a s ch]. apply step. simpl.
  induction ch as [|c ch IHc]; constructor; [apply IH | exact IHc].
Qed.
End TreeInduction.

(** X16.  [IsFullySelected] holds of a node exactly when every node of its
    subtree that has a valid source range is completely selected. *)
Theorem fully_selected_iff :
  forall (T : TreeNode),
    IsFullySelected T = true <->
    forall X, InSubtree X T ->
              rangeIsValid (nodeSourceRange (nodeAST X)) = true ->
              nodeSelected X = Complete.
Proof.
  apply (TreeNode_children_ind
           (fun T => IsFullySelected T = true <->
                     forall X, InSubtree X T ->
                               rangeIsValid (nodeSourceRange (nodeAST X)) = true ->
                               nodeSelected X = Complete)).
  intros T HCh.
  assert (HU : IsFullySelected T =
               if rangeIsValid (nodeSourceRange (nodeAST T)) &&
                  negb (SelectionKind_eqb (nodeSelected T) Complete)
               then false else forallb IsFullySelected (nodeChildren T))
    by (destruct T; reflexivity).
  rewrite HU. rewrite Forall_forall in HCh. split.
  - intros H X HX HV.
    destruct (rangeIsValid (nodeSourceRange (nodeAST T)) &&
              negb (SelectionKind_eqb (nodeSelected T) Complete)) eqn:HT;
      [discriminate H|].
    rewrite forallb_forall in H.
    inversion HX as [|? C ? HIn HSub]; subst.
    + rewrite HV in HT. simpl in HT.
      match goal with
      | |- nodeSelected ?Y = _ =>
          destruct (nodeSelected Y); try discriminate HT; reflexivity
      end.
    + apply (proj1 (HCh C HIn) (H C HIn) X HSub HV).
  - intro H.
    destruct (rangeIsValid (nodeSourceRange (nodeAST T))) eqn:HV; simpl.
    + rewrite (H T (InSubtree_root T) HV). simpl.
      apply forallb_forall. intros C HIn. apply (HCh C HIn).
      intros X HX. apply H. apply InSubtree_child with C; assumption.
    + apply forallb_forall. intros C HIn. apply (HCh C HIn).
      intros X HX. apply H. apply InSubtree_child with C; assumption.
Qed.

Lemma fully_selected_iff_witness :
  nodeSelected (Fixture.leaf Fixture.Block.lit Complete) = Complete.
Proof.
  apply (proj1 (fully_selected_iff Fixture.Block.sumNode) eq_refl
           (Fixture.leaf Fixture.Block.lit Complete)).
  - apply InSubtree_child with (Fixture.leaf Fixture.Block.lit Complete);
      [right; left; reflexivity | constructor].
  - reflexivity.
Defined.

(** ** Pass manager command-line options *)

Import PassManagerCL.

Lemma apply_cases (o : PassManagerOptions) (pm : PassManager) :
  applyPassManagerCLOptions (Some o) pm =
  if localReproducerConflict o pm
  then (failure,
        {| isMultithreadingEnabled := isMultithreadingEnabled pm;
           diagnostics := diagnostics pm ++
             ["Local crash reproduction may not be used without disabling mutli-threading first."%string];
           calls := calls pm |})
  else
    let pm1 := {| isMultithreadingEnabled := isMultithreadingEnabled pm;
                  diagnostics := diagnostics pm;
                  calls := calls pm ++ earlyCalls o |} in
    if moduleScopeConflict o pm
    then (failure,
          {| isMultithreadingEnabled := isMultithreadingEnabled pm;
             diagnostics := diagnostics pm ++
               [("IR print for module scope can't be setup on a pass-manager without disabling multi-threading first."
                 ++ String (Ascii.ascii_of_nat 10) EmptyString)%string];
             calls := calls pm ++ earlyCalls o |})
    else (success, addPrinterInstrumentation o pm1).
Proof.
  unfold applyPassManagerCLOptions, localReproducerConflict,
    moduleScopeConflict, earlyCalls.
  destruct pm as [mt ds cs]; simpl.
  destruct (negb (Nat.eqb (reproducerFileOccurrences o) 0)); simpl;
    destruct (localReproducer o); simpl;
    destruct mt; simpl; try reflexivity;
    destruct (passStatistics o); simpl;
    destruct (printModuleScope o); simpl;
    unfold call, emitError; simpl;
    rewrite <- ?app_assoc, ?app_nil_r; reflexivity.
Qed.

(** X17.  [applyPassManagerCLOptions] succeeds exactly when the options
    struct is constructed, local crash reproduction is not asked for on a
    multi-threaded context, and module-scope printing is not asked for on a
    multi-threaded context.  Without the options struct it fails and leaves
    the pass manager as it was.  Registering constructs the struct once and
    keeps one that exists; with no flag given, applying after registering
    succeeds and makes no call. *)
Theorem cl_options_result :
  (forall (options : option PassManagerOptions) (pm : PassManager),
      fst (applyPassManagerCLOptions options pm) = success <->
      exists o,
        options = Some o /\
        localReproducerConflict o pm = false /\
        moduleScopeConflict o pm = false) /\
  (forall (pm : PassManager),
      applyPassManagerCLOptions None pm = (failure, pm)) /\
  (forall (options : option PassManagerOptions) (pm : PassManager),
      registerPassManagerCLOptions
        (registerPassManagerCLOptions options) =
      registerPassManagerCLOptions options /\
      (forall o, options = Some o ->
                 registerPassManagerCLOptions options = Some o) /\
      applyPassManagerCLOptions (registerPassManagerCLOptions None) pm =
      (success, pm)).
Proof.
  split; [|split].
  - intros [o|] pm.
    + rewrite apply_cases. split.
      * destruct (localReproducerConflict o pm) eqn:HL; [discriminate|].
        destruct (moduleScopeConflict o pm) eqn:HS; [discriminate|].
        intros _. exists o. repeat split; assumption.
      * intros (o' & Ho & HL & HS). injection Ho as <-.
        rewrite HL, HS. reflexivity.
    + split; [discriminate | intros (o' & Ho & _); discriminate Ho].
  - reflexivity.
  - intros options pm. split; [destruct options; reflexivity|].
    split; [intros o ->; reflexivity|].
    destruct pm as [[|] ds cs]; reflexivity.
Qed.

(** X18.  When [applyPassManagerCLOptions] fails on constructed options, the
    context is multi-threaded and exactly one diagnostic is emitted.  For
    the conflict of local crash reproduction no call is made on the pass
    manager; for the conflict of module-scope printing the crash reproducer
    and the statistics that were asked for have already been enabled.  IR
    printing is never installed. *)
Theorem cl_options_failure :
  forall (o : PassManagerOptions) (pm pm' : PassManager),
    applyPassManagerCLOptions (Some o) pm = (failure, pm') ->
    isMultithreadingEnabled pm = true /\
    isMultithreadingEnabled pm' = true /\
    (exists Message, diagnostics pm' = diagnostics pm ++ [Message]) /\
    (localReproducerConflict o pm = true -> calls pm' = calls pm) /\
    (localReproducerConflict o pm = false ->
     printModuleScope o = true /\ calls pm' = calls pm ++ earlyCalls o) /\
    forallb (fun C => negb (isPrinting C)) (skipn (List.length (calls pm)) (calls pm'))
      = true.
Proof.
  intros o pm pm'. rewrite apply_cases.
  destruct (localReproducerConflict o pm) eqn:HL.
  - intro H; injection H as <-. simpl.
    assert (HM : isMultithreadingEnabled pm = true).
    { unfold localReproducerConflict in HL. apply andb_true_iff in HL. apply HL. }
    repeat split; eauto; try discriminate.
    rewrite skipn_all. reflexivity.
  - destruct (moduleScopeConflict o pm) eqn:HS; [|discriminate].
    intro H; injection H as <-. simpl.
    unfold moduleScopeConflict in HS. apply andb_true_iff in HS.
    destruct HS as [HP HM].
    repeat split; eauto; try discriminate.
    rewrite skipn_app, skipn_all, Nat.sub_diag. simpl.
    unfold earlyCalls.
    destruct (negb (Nat.eqb (reproducerFileOccurrences o) 0));
      destruct (passStatistics o); reflexivity.
Qed.

Lemma namedFilter_accepts (Parser : PassNameCLParser) :
  acceptsNamed Parser (namedFilter Parser).
Proof.
  intro pass. unfold namedFilter.
  destruct (lookupPassInfo pass) as [passInfo|].
  - split.
    + intro H. exists passInfo. split; [reflexivity | exact H].
    + intros (x & HE & HIn). injection HE as <-. exact HIn.
  - split; [discriminate | intros (x & HE & _); discriminate HE].
Qed.

(** X19.  [addPrinterInstrumentation] leaves the pass manager as it was when
    no print flag is given; otherwise it makes exactly one call, printing to
    a file tree exactly when a tree directory is given.  The filter before
    passes accepts every pass with print-before-all, else the passes whose
    registry entry print-before names (never a pass without an entry), and
    is empty when neither is given; the filter after passes does the same,
    with print-after-all or print-after-failure accepting every pass. *)
Theorem printer_instrumentation :
  forall (o : PassManagerOptions) (pm : PassManager),
    (wantsPrinting o = false -> addPrinterInstrumentation o pm = pm) /\
    (wantsPrinting o = true ->
     exists Before After : Filter,
       calls (addPrinterInstrumentation o pm) =
         calls pm ++
         [if isEmpty (printTreeDir o)
          then enableIRPrinting Before After (printModuleScope o)
                 (printAfterChange o) (printAfterFailure o)
          else enableIRPrintingToFileTree Before After (printModuleScope o)
                 (printAfterChange o) (printAfterFailure o) (printTreeDir o)] /\
       diagnostics (addPrinterInstrumentation o pm) = diagnostics pm /\
       (printBeforeAll o = true ->
        exists f, Before = Some f /\ forall pass, f pass = true) /\
       (printBeforeAll o = false ->
        hasAnyOccurrences (printBefore o) = true ->
        exists f, Before = Some f /\ acceptsNamed (printBefore o) f) /\
       (printBeforeAll o = false ->
        hasAnyOccurrences (printBefore o) = false -> Before = None) /\
       (printAfterAll o || printAfterFailure o = true ->
        exists f, After = Some f /\ forall pass, f pass = true) /\
       (printAfterAll o || printAfterFailure o = false ->
        hasAnyOccurrences (printAfter o) = true ->
        exists f, After = Some f /\ acceptsNamed (printAfter o) f) /\
       (printAfterAll o || printAfterFailure o = false ->
        hasAnyOccurrences (printAfter o) = false -> After = None)).
Proof.
  intros o pm. unfold wantsPrinting, addPrinterInstrumentation. split.
  - intro H.
    destruct (printBeforeAll o); [discriminate H|].
    destruct (hasAnyOccurrences (printBefore o)); [discriminate H|].
    destruct (printAfterAll o); [discriminate H|].
    destruct (printAfterFailure o); [discriminate H|].
    destruct (hasAnyOccurrences (printAfter o)); [discriminate H|].
    reflexivity.
  - intro H.
    exists (if printBeforeAll o then Some (fun _ => true)
            else if hasAnyOccurrences (printBefore o)
                 then Some (namedFilter (printBefore o)) else None),
           (if printAfterAll o || printAfterFailure o then Some (fun _ => true)
            else if hasAnyOccurrences (printAfter o)
                 then Some (namedFilter (printAfter o)) else None).
    split; [|split].
    + destruct (printBeforeAll o), (hasAnyOccurrences (printBefore o)),
        (printAfterAll o), (printAfterFailure o),
        (hasAnyOccurrences (printAfter o)); try discriminate H; simpl;
        destruct (isEmpty (printTreeDir o)); reflexivity.
    + destruct (printBeforeAll o), (hasAnyOccurrences (printBefore o)),
        (printAfterAll o), (printAfterFailure o),
        (hasAnyOccurrences (printAfter o)); try discriminate H; simpl;
        destruct (isEmpty (printTreeDir o)); reflexivity.
    + split; [intros ->; eauto|].
      split; [intros -> ->; eexists; split;
              [reflexivity | apply namedFilter_accepts]|].
      split; [intros -> ->; reflexivity|].
      split; [intros ->; eauto|].
      split; [intros -> ->; eexists; split;
              [reflexivity | apply namedFilter_accepts]|].
      intros -> ->; reflexivity.
Qed.

Lemma cl_options_result_witness :
  applyPassManagerCLOptions (registerPassManagerCLOptions None)
    Fixture.ModuleScope.threaded = (success, Fixture.ModuleScope.threaded).
Proof.
  exact (proj2 (proj2 (proj2 (proj2 cl_options_result)
                         None Fixture.ModuleScope.threaded))).
Defined.

Lemma cl_options_failure_witness :
  isMultithreadingEnabled Fixture.ModuleScope.threaded = true /\
  isMultithreadingEnabled
    (snd (applyPassManagerCLOptions (Some Fixture.ModuleScope.options)
            Fixture.ModuleScope.threaded)) = true /\
  (exists Message,
      diagnostics
        (snd (applyPassManagerCLOptions (Some Fixture.ModuleScope.options)
                Fixture.ModuleScope.threaded)) =
      diagnostics Fixture.ModuleScope.threaded ++ [Message]) /\
  (localReproducerConflict Fixture.ModuleScope.options
     Fixture.ModuleScope.threaded = true ->
   calls (snd (applyPassManagerCLOptions (Some Fixture.ModuleScope.options)
                 Fixture.ModuleScope.threaded)) =
   calls Fixture.ModuleScope.threaded) /\
  (localReproducerConflict Fixture.ModuleScope.options
     Fixture.ModuleScope.threaded = false ->
   printModuleScope Fixture.ModuleScope.options = true /\
   calls (snd (applyPassManagerCLOptions (Some Fixture.ModuleScope.options)
                 Fixture.ModuleScope.threaded)) =
   calls Fixture.ModuleScope.threaded ++ earlyCalls Fixture.ModuleScope.options) /\
  forallb (fun C => negb (isPrinting C))
    (skipn (List.length (calls Fixture.ModuleScope.threaded))
       (calls (snd (applyPassManagerCLOptions (Some Fixture.ModuleScope.options)
                      Fixture.ModuleScope.threaded)))) = true.
Proof.
  apply (cl_options_failure Fixture.ModuleScope.options
           Fixture.ModuleScope.threaded
           (snd (applyPassManagerCLOptions (Some Fixture.ModuleScope.options)
                   Fixture.ModuleScope.threaded))).
  reflexivity.
Defined.

Lemma printer_instrumentation_witness :
  exists After : Filter,
    calls (addPrinterInstrumentation Fixture.ModuleScope.options
             Fixture.ModuleScope.sequential) =
      calls Fixture.ModuleScope.sequential ++
      [enableIRPrinting None After true false true] /\
    (exists f, After = Some f /\ forall pass, f pass = true).
Proof.
  destruct (proj2 (printer_instrumentation Fixture.ModuleScope.options
                     Fixture.ModuleScope.sequential) eq_refl)
    as (Before & After & HC & _ & _ & _ & HB & HA & _).
  exists After. rewrite (HB eq_refl eq_refl) in HC.
  split; [exact HC | apply HA; reflexivity].
Defined.
